(** * The machine reconciliation scope of cluster-api-provider-aws

    A shallow embedding of [pkg/cloud/scope/machine.go] and the properties
    its specification states about it.

    The Go code works on records reached through pointers, on Go maps
    (reference values that are mutated in place) and on one external effect,
    the patch sent to the backing store when the scope is closed.  The
    embedding keeps the three apart:
    - the four records a scope points to ([Cluster], [Machine], [AWSCluster],
      [AWSMachine]) have four different Go types, so the pointers can never
      alias one another; the scope is modelled with the pointees in place of
      the pointers;
    - every other reference (a [*string], a [map[string]string], a slice) is
      an address into an explicit [Heap], so that sharing and freshness can
      be stated;
    - calls to the backing store are events of a small free monad [io],
      interpreted against an arbitrary backing store. *)

From Stdlib Require Import Ascii String.
From stdpp Require Import base option gmap strings list fin_maps.

Local Open Scope string_scope.

(** ** Go references and the heap *)

Definition loc := positive.

(** A pointer, a map or a slice: [None] is Go's [nil]. *)
Definition ref := option loc.

(** [corev1.NodeAddress] *)
Record NodeAddress := { Type_ : string; Address : string }.

#[global] Instance NodeAddress_eq_dec : EqDecision NodeAddress.
Proof. solve_decision. Defined.

(** What an address can hold.  [infrav1.InstanceState] and
    [capierrors.MachineStatusError] are Go string types, their cells are
    [CString] cells. *)
Inductive cell :=
  | CString (s : string)
  | CMap (m : gmap string string)
  | CAddrs (l : list NodeAddress).

Record Heap := { cells : gmap loc cell; next : loc }.

(** Allocation hands out the next unused address. *)
Definition alloc (c : cell) (h : Heap) : loc * Heap :=
  (next h, {| cells := <[next h := c]> (cells h); next := Pos.succ (next h) |}).

Definition store_cell (l : loc) (c : cell) (h : Heap) : Heap :=
  {| cells := <[l := c]> (cells h); next := next h |}.

(** Loads are total: a Go reference never dangles, the defaults are only
    reached on heaps that are not [heap_wf]-related to the reader. *)
Definition load_string (h : Heap) (l : loc) : string :=
  match cells h !! l with Some (CString s) => s | _ => "" end.

Definition load_map (h : Heap) (l : loc) : gmap string string :=
  match cells h !! l with Some (CMap m) => m | _ => ∅ end.

Definition load_addrs (h : Heap) (l : loc) : list NodeAddress :=
  match cells h !! l with Some (CAddrs a) => a | _ => [] end.

(** Reading a Go map that may be nil: a nil map reads as the empty map. *)
Definition map_of (h : Heap) (r : ref) : gmap string string :=
  match r with Some l => load_map h l | None => ∅ end.

(** [pointer.StringPtr(v)]: the address of a fresh copy of [v]. *)
Definition pointer_StringPtr (v : string) (h : Heap) : ref * Heap :=
  let '(l, h') := alloc (CString v) h in (Some l, h').

(** An address is allocated when it lies below the allocation frontier. *)
Definition allocated (h : Heap) (r : ref) : Prop :=
  match r with Some l => (l < next h)%positive | None => True end.

(** ** Errors ([github.com/pkg/errors] and the backing store's) *)

Inductive error :=
  | errors_New (msg : string)
  | errors_Wrap (cause : error) (msg : string)
  | ConflictError
  | TransportError.

#[global] Instance error_eq_dec : EqDecision error.
Proof. solve_decision. Defined.

(** [err.Error()] *)
Fixpoint Error (e : error) : string :=
  match e with
  | errors_New msg => msg
  | errors_Wrap cause msg => msg ++ ": " ++ Error cause
  | ConflictError => "conflict"
  | TransportError => "transport"
  end.

(** [errors.Cause(err)]: the innermost error of a chain of wrappers. *)
Fixpoint errors_Cause (e : error) : error :=
  match e with
  | errors_Wrap cause _ => errors_Cause cause
  | _ => e
  end.

(** [wraps e target]: [target] is [e] itself or lies below its wrappers. *)
Fixpoint wraps (e target : error) : bool :=
  bool_decide (e = target) ||
  match e with
  | errors_Wrap cause _ => wraps cause target
  | _ => false
  end.

(** ** The records

    Each Go struct is a module holding a record [t] whose fields carry the
    Go names.  Only the fields the scope reads or writes are kept. *)

Module ObjectMeta.
(** [metav1.ObjectMeta] *)
Record t := mk
  { Name : string; Namespace : string; Labels : ref; Annotations : ref }.
End ObjectMeta.

Module AWSMachineSpec.
Record t := mk { ProviderID : ref; AdditionalTags : ref }.
End AWSMachineSpec.

Module AWSMachineStatus.
Record t := mk
  { Ready : bool;
    InstanceState : ref;
    ErrorReason : ref;
    ErrorMessage : ref;
    Addresses : ref }.
End AWSMachineStatus.

Module AWSMachine.
(** [infrav1.AWSMachine], the machine record. *)
Record t := mk
  { ObjectMeta : ObjectMeta.t;
    Spec : AWSMachineSpec.t;
    Status : AWSMachineStatus.t }.
End AWSMachine.

Module AWSClusterSpec.
Record t := mk { AdditionalTags : ref }.
End AWSClusterSpec.

Module AWSCluster.
(** [infrav1.AWSCluster], the cluster record. *)
Record t := mk { ObjectMeta : ObjectMeta.t; Spec : AWSClusterSpec.t }.
End AWSCluster.

Module Machine.
(** [clusterv1.Machine], the owner machine. *)
Record t := mk { ObjectMeta : ObjectMeta.t }.
End Machine.

Module Cluster.
(** [clusterv1.Cluster] *)
Record t := mk { ObjectMeta : ObjectMeta.t }.
End Cluster.

(** [logr.Logger] is an interface; a value is the default [klogr] logger or
    one the caller built. *)
Inductive Logger := klogr_Logger | caller_Logger (id : nat).

Definition klogr_New : Logger := klogr_Logger.

(** [client.Client] is an interface; the model keeps the identity of the
    value, what a call on it does is the backing store's business. *)
Definition Client := nat.

(** [context.Context]: the two root contexts and the derived ones a caller
    can cancel or that expire ([d] is the timeout). *)
Inductive Context :=
  | context_Background
  | context_TODO
  | context_WithCancel (parent : Context)
  | context_WithTimeout (parent : Context) (d : nat).


(** ** Unstructured records and patches

    The patch helper compares two records field by field after they have
    been converted to a map from field path to value. *)

Inductive json :=
  | JNull
  | JBool (b : bool)
  | JString (s : string)
  | JMap (m : gmap string string)
  | JAddrs (l : list NodeAddress).

#[global] Instance json_eq_dec : EqDecision json.
Proof. solve_decision. Defined.

(** A field held through a reference appears only when the reference is not
    nil, with the value found behind it. *)
Definition field (k : string) (r : ref) (v : loc -> json) : list (string * json) :=
  match r with Some l => [(k, v l)] | None => [] end.

(** Modelled from the spec: the conversion the patch helper applies to a
    machine record (the helper package is not among the sources embedded
    here).  It reads the record's "current field values" through the heap,
    so the result shares nothing with the record. *)
Definition ToUnstructured (h : Heap) (r : AWSMachine.t) : gmap string json :=
  let meta := AWSMachine.ObjectMeta r in
  let spec := AWSMachine.Spec r in
  let status := AWSMachine.Status r in
  list_to_map
    ([("metadata.name", JString (ObjectMeta.Name meta));
      ("metadata.namespace", JString (ObjectMeta.Namespace meta))]
     ++ field "metadata.labels" (ObjectMeta.Labels meta) (λ l, JMap (load_map h l))
     ++ field "metadata.annotations" (ObjectMeta.Annotations meta) (λ l, JMap (load_map h l))
     ++ field "spec.providerID" (AWSMachineSpec.ProviderID spec) (λ l, JString (load_string h l))
     ++ field "spec.additionalTags" (AWSMachineSpec.AdditionalTags spec) (λ l, JMap (load_map h l))
     ++ [("status.ready", JBool (AWSMachineStatus.Ready status))]
     ++ field "status.instanceState" (AWSMachineStatus.InstanceState status) (λ l, JString (load_string h l))
     ++ field "status.errorReason" (AWSMachineStatus.ErrorReason status) (λ l, JString (load_string h l))
     ++ field "status.errorMessage" (AWSMachineStatus.ErrorMessage status) (λ l, JString (load_string h l))
     ++ field "status.addresses" (AWSMachineStatus.Addresses status) (λ l, JAddrs (load_addrs h l))).



(** Applying a patch to a stored record: [JNull] removes the field. *)
Definition patch_field (p stored : option json) : option json :=
  match p with
  | Some JNull => None
  | Some v => Some v
  | None => stored
  end.

Definition apply_patch (p stored : gmap string json) : gmap string json :=
  merge patch_field p stored.

(** ** Calls to the backing store

    A program that talks to the backing store is a tree of calls: each call
    names the client it goes through, the context it carries, the record it
    addresses and the patch document; the continuation receives the store's
    answer ([None] is success). *)

Record Call := mkCall
  { call_client : Client;
    call_ctx : Context;
    call_namespace : string;
    call_name : string;
    call_patch : gmap string json }.

Inductive io (A : Type) :=
  | Ret (a : A)
  | Vis (c : Call) (k : option error -> io A).

Arguments Ret {A} a.
Arguments Vis {A} c k.

Section Run.
(** The backing store: its state and what one conditional update does to
    it.  The scope is a leaf over this abstraction, every property of a
    commit is stated for an arbitrary store. *)
Context {Store : Type}.
Variable conditionalUpdate : Call -> Store -> option error * Store.

(** Runs a program against the store; returns the program's result, the
    store it leaves and the calls it made, in order. *)
Fixpoint run {A} (p : io A) (σ : Store) : A * Store * list Call :=
  match p with
  | Ret a => (a, σ, [])
  | Vis c k =>
      let '(r, σ1) := conditionalUpdate c σ in
      let '(a, σ2, log) := run (k r) σ1 in
      (a, σ2, c :: log)
  end.
End Run.


(** ** The patch helper ([sigs.k8s.io/cluster-api/util/patch]) *)

Module Helper.
Record t := mk { client : Client; before : gmap string json }.
End Helper.

(** Modelled from the spec: [patch.NewHelper] (the helper package is not
    among the sources embedded here).  It snapshots the record's current
    field values and keeps the client; it fails, with the converter's error,
    on a record the converter rejects.  Which records those are is not fixed
    by the specification: [snapshot_error] is a parameter. *)
Definition patch_NewHelper (snapshot_error : gmap string json -> option error)
    (h : Heap) (resource : AWSMachine.t) (crClient : Client)
    : option Helper.t * option error :=
  let before := ToUnstructured h resource in
  match snapshot_error before with
  | Some err => (None, Some err)
  | None => (Some (Helper.mk crClient before), None)
  end.


(** ** The scope ([pkg/cloud/scope/machine.go]) *)

Module MachineScopeParams.
(** The input bundle.  A nil pointer or interface is [None].  The embedded
    [AWSClients] bundle is never read by this file and is left out. *)
Record t := mk
  { Client : option Client;
    Logger : option Logger;
    Cluster : option Cluster.t;
    Machine : option Machine.t;
    AWSCluster : option AWSCluster.t;
    AWSMachine : option AWSMachine.t }.
End MachineScopeParams.

Module MachineScope.
Record t := mk
  { Logger : Logger;
    client : Client;
    patchHelper : option Helper.t;
    Cluster : Cluster.t;
    Machine : Machine.t;
    AWSCluster : AWSCluster.t;
    AWSMachine : AWSMachine.t }.
End MachineScope.

Section Construction.
Variable snapshot_error : gmap string json -> option error.

(** [NewMachineScope]: the Go pair (scope, error). *)
Definition NewMachineScope (params : MachineScopeParams.t) (h : Heap)
    : option MachineScope.t * option error :=
  match MachineScopeParams.Client params with
  | None => (None, Some (errors_New "client is required when creating a MachineScope"))
  | Some client =>
  match MachineScopeParams.Machine params with
  | None => (None, Some (errors_New "machine is required when creating a MachineScope"))
  | Some machine =>
  match MachineScopeParams.Cluster params with
  | None => (None, Some (errors_New "cluster is required when creating a MachineScope"))
  | Some cluster =>
  match MachineScopeParams.AWSMachine params with
  | None => (None, Some (errors_New "aws machine is required when creating a MachineScope"))
  | Some awsMachine =>
  match MachineScopeParams.AWSCluster params with
  | None => (None, Some (errors_New "aws cluster is required when creating a MachineScope"))
  | Some awsCluster =>
      let logger := default klogr_New (MachineScopeParams.Logger params) in
      let '(helper, err) := patch_NewHelper snapshot_error h awsMachine client in
      match err with
      | Some err => (None, Some (errors_Wrap err "failed to init patch helper"))
      | None =>
          (Some (MachineScope.mk logger client helper
                   cluster machine awsCluster awsMachine), None)
      end
  end end end end end.
End Construction.

(** Field updates, written out as Go's assignments through the pointers. *)
Definition with_AWSMachine (m : MachineScope.t) (r : AWSMachine.t) : MachineScope.t :=
  MachineScope.mk (MachineScope.Logger m) (MachineScope.client m)
    (MachineScope.patchHelper m) (MachineScope.Cluster m) (MachineScope.Machine m)
    (MachineScope.AWSCluster m) r.

Definition with_ObjectMeta (r : AWSMachine.t) (meta : ObjectMeta.t) : AWSMachine.t :=
  AWSMachine.mk meta (AWSMachine.Spec r) (AWSMachine.Status r).

Definition with_Spec (r : AWSMachine.t) (spec : AWSMachineSpec.t) : AWSMachine.t :=
  AWSMachine.mk (AWSMachine.ObjectMeta r) spec (AWSMachine.Status r).

Definition with_Status (r : AWSMachine.t) (status : AWSMachineStatus.t) : AWSMachine.t :=
  AWSMachine.mk (AWSMachine.ObjectMeta r) (AWSMachine.Spec r) status.

(** [Name], [Namespace] *)
Definition Name (m : MachineScope.t) : string :=
  ObjectMeta.Name (AWSMachine.ObjectMeta (MachineScope.AWSMachine m)).

Definition Namespace (m : MachineScope.t) : string :=
  ObjectMeta.Namespace (AWSMachine.ObjectMeta (MachineScope.AWSMachine m)).

(** The label that marks a control plane machine
    ([clusterv1.MachineControlPlaneLabelName]). *)
Definition MachineControlPlaneLabelName : string := "cluster.x-k8s.io/control-plane".

(** Modelled from the spec: [util.IsControlPlaneMachine] (the package is not
    among the sources embedded here): the owner machine's role marker, read
    from its labels; a machine without the marker is not a control plane
    machine.  Reading a missing key of a Go map gives the empty string. *)
Definition util_IsControlPlaneMachine (h : Heap) (machine : Machine.t) : bool :=
  let labels := map_of h (ObjectMeta.Labels (Machine.ObjectMeta machine)) in
  negb (String.eqb (default "" (labels !! MachineControlPlaneLabelName)) "").

(** [IsControlPlane] *)
Definition IsControlPlane (m : MachineScope.t) (h : Heap) : bool :=
  util_IsControlPlaneMachine h (MachineScope.Machine m).

(** [Role] *)
Definition Role (m : MachineScope.t) (h : Heap) : string :=
  if util_IsControlPlaneMachine h (MachineScope.Machine m)
  then "control-plane"
  else "node".

(** ** Provider identifiers ([noderefutil]) *)

Module ProviderID.
Record t := mk { original : string; cloudProvider : string; id : string }.
End ProviderID.

Definition ErrEmptyProviderID : error := errors_New "providerID is empty".

Definition ErrInvalidProviderID : error :=
  errors_New "providerID must be of the form <cloudProvider>://<optional>/<segments>/<provider id>".

(** The text after the last slash of [s], [acc] being what was read since
    the last slash seen. *)
Fixpoint last_segment_from (acc s : string) : string :=
  match s with
  | EmptyString => acc
  | String c rest =>
      if Ascii.eqb c "/"%char
      then last_segment_from "" rest
      else last_segment_from (acc ++ String c "") rest
  end.

Definition last_segment (s : string) : string := last_segment_from "" s.

(** Modelled from the spec: [noderefutil.NewProviderID] (the package is not
    among the sources embedded here).  A provider ID is "structured as
    scheme://identifier", and
    the identifier is what follows the last slash (the specification's
    example reads "i-0123" out of "aws:///us-east-1a/i-0123").  The empty
    string, a string without "://", an empty scheme and an empty identifier
    are parse failures. *)
Definition noderefutil_NewProviderID (s : string) : option ProviderID.t * option error :=
  if String.eqb s "" then (None, Some ErrEmptyProviderID)
  else
    match index 0 "://" s with
    | None => (None, Some ErrInvalidProviderID)
    | Some i =>
        let scheme := substring 0 i s in
        let rest := substring (i + 3) (String.length s - (i + 3)) s in
        let ident := last_segment rest in
        if String.eqb scheme "" || String.eqb ident ""
        then (None, Some ErrInvalidProviderID)
        else (Some (ProviderID.mk s scheme ident), None)
    end.

(** [GetProviderID] *)
Definition GetProviderID (m : MachineScope.t) (h : Heap) : string :=
  match AWSMachineSpec.ProviderID (AWSMachine.Spec (MachineScope.AWSMachine m)) with
  | Some l => load_string h l
  | None => ""
  end.

(** [GetInstanceID]: a nil pointer, or a pointer to a fresh copy of the
    parsed identifier.  When the parser reports no error its result is
    dereferenced; a nil result there would be a nil dereference ([None]). *)
Definition GetInstanceID (m : MachineScope.t) (h : Heap) : option (ref * Heap) :=
  let '(parsed, err) := noderefutil_NewProviderID (GetProviderID m h) in
  match err with
  | Some _ => Some (None, h)
  | None =>
      match parsed with
      | Some p => Some (pointer_StringPtr (ProviderID.id p) h)
      | None => None
      end
  end.

(** [SetProviderID] *)
Definition SetProviderID (v : string) (m : MachineScope.t) (h : Heap) : MachineScope.t * Heap :=
  let r := MachineScope.AWSMachine m in
  let '(p, h') := pointer_StringPtr v h in
  (with_AWSMachine m
     (with_Spec r (AWSMachineSpec.mk p (AWSMachineSpec.AdditionalTags (AWSMachine.Spec r)))),
   h').

(** [GetInstanceState] *)
Definition GetInstanceState (m : MachineScope.t) : ref :=
  AWSMachineStatus.InstanceState (AWSMachine.Status (MachineScope.AWSMachine m)).

(** [SetInstanceState]: the argument is passed by value, [&v] is the address
    of the callee's own copy. *)
Definition SetInstanceState (v : string) (m : MachineScope.t) (h : Heap) : MachineScope.t * Heap :=
  let r := MachineScope.AWSMachine m in
  let st := AWSMachine.Status r in
  let '(p, h') := alloc (CString v) h in
  (with_AWSMachine m
     (with_Status r
        (AWSMachineStatus.mk (AWSMachineStatus.Ready st) (Some p)
           (AWSMachineStatus.ErrorReason st) (AWSMachineStatus.ErrorMessage st)
           (AWSMachineStatus.Addresses st))),
   h').

(** [SetReady] *)
Definition SetReady (m : MachineScope.t) : MachineScope.t :=
  let r := MachineScope.AWSMachine m in
  let st := AWSMachine.Status r in
  with_AWSMachine m
    (with_Status r
       (AWSMachineStatus.mk true (AWSMachineStatus.InstanceState st)
          (AWSMachineStatus.ErrorReason st) (AWSMachineStatus.ErrorMessage st)
          (AWSMachineStatus.Addresses st))).

(** [SetErrorMessage]: [v] is an interface value; calling [v.Error()] on a
    nil one is a nil dereference ([None]). *)
Definition SetErrorMessage (v : option error) (m : MachineScope.t) (h : Heap)
    : option (MachineScope.t * Heap) :=
  match v with
  | None => None
  | Some e =>
      let r := MachineScope.AWSMachine m in
      let st := AWSMachine.Status r in
      let '(p, h') := pointer_StringPtr (Error e) h in
      Some (with_AWSMachine m
              (with_Status r
                 (AWSMachineStatus.mk (AWSMachineStatus.Ready st)
                    (AWSMachineStatus.InstanceState st)
                    (AWSMachineStatus.ErrorReason st) p
                    (AWSMachineStatus.Addresses st))),
            h')
  end.

(** [SetErrorReason] *)
Definition SetErrorReason (v : string) (m : MachineScope.t) (h : Heap) : MachineScope.t * Heap :=
  let r := MachineScope.AWSMachine m in
  let st := AWSMachine.Status r in
  let '(p, h') := alloc (CString v) h in
  (with_AWSMachine m
     (with_Status r
        (AWSMachineStatus.mk (AWSMachineStatus.Ready st)
           (AWSMachineStatus.InstanceState st) (Some p)
           (AWSMachineStatus.ErrorMessage st) (AWSMachineStatus.Addresses st))),
   h').

(** [SetAnnotation]: a nil map is replaced by a new empty one, then the map
    is written in place. *)
Definition SetAnnotation (key value : string) (m : MachineScope.t) (h : Heap)
    : MachineScope.t * Heap :=
  let r := MachineScope.AWSMachine m in
  let meta := AWSMachine.ObjectMeta r in
  let '(l, h1) :=
    match ObjectMeta.Annotations meta with
    | None => alloc (CMap ∅) h
    | Some l => (l, h)
    end in
  (with_AWSMachine m
     (with_ObjectMeta r
        (ObjectMeta.mk (ObjectMeta.Name meta) (ObjectMeta.Namespace meta)
           (ObjectMeta.Labels meta) (Some l))),
   store_cell l (CMap (<[key := value]> (load_map h1 l))) h1).

(** [SetAddresses]: the slice is stored as it is, the scope shares it with
    the caller. *)
Definition SetAddresses (addrs : ref) (m : MachineScope.t) : MachineScope.t :=
  let r := MachineScope.AWSMachine m in
  let st := AWSMachine.Status r in
  with_AWSMachine m
    (with_Status r
       (AWSMachineStatus.mk (AWSMachineStatus.Ready st)
          (AWSMachineStatus.InstanceState st) (AWSMachineStatus.ErrorReason st)
          (AWSMachineStatus.ErrorMessage st) addrs)).


(** Modelled from the spec: [Tags.Merge] (api/v1alpha2, not among the
    sources embedded here): "merge" is upsert-by-key, every entry of [other]
    is written into the receiver.  [other] may be nil; the receiver is a map
    that exists. *)
Definition Tags_Merge (t : loc) (other : ref) (h : Heap) : Heap :=
  store_cell t
    (CMap (map_fold (λ k v acc, <[k := v]> acc) (load_map h t) (map_of h other))) h.

(** [AdditionalTags] *)
Definition AdditionalTags (m : MachineScope.t) (h : Heap) : ref * Heap :=
  let '(tags, h0) := alloc (CMap ∅) h in
  let h1 := Tags_Merge tags
              (AWSClusterSpec.AdditionalTags (AWSCluster.Spec (MachineScope.AWSCluster m))) h0 in
  let h2 := Tags_Merge tags
              (AWSMachineSpec.AdditionalTags (AWSMachine.Spec (MachineScope.AWSMachine m))) h1 in
  (Some tags, h2).

(** ** Vocabulary of the properties *)

(** The five required collaborators, in the words of the specification:
    client, machine, cluster, machine-record, cluster-record. *)
Inductive collaborator :=
  | the_client
  | the_machine
  | the_cluster
  | the_machine_record
  | the_cluster_record.

(** The fixed order in which they are checked. *)
Definition required_order : list collaborator :=
  [the_client; the_machine; the_cluster; the_machine_record; the_cluster_record].

Definition is_nil {A} (o : option A) : bool :=
  match o with None => true | Some _ => false end.

Definition absent (params : MachineScopeParams.t) (c : collaborator) : bool :=
  match c with
  | the_client => is_nil (MachineScopeParams.Client params)
  | the_machine => is_nil (MachineScopeParams.Machine params)
  | the_cluster => is_nil (MachineScopeParams.Cluster params)
  | the_machine_record => is_nil (MachineScopeParams.AWSMachine params)
  | the_cluster_record => is_nil (MachineScopeParams.AWSCluster params)
  end.

(** The first absent collaborator in the fixed order, if any. *)
Definition first_absent (params : MachineScopeParams.t) : option collaborator :=
  List.find (absent params) required_order.

(** How the error names the collaborator. *)
Definition collaborator_name (c : collaborator) : string :=
  match c with
  | the_client => "client"
  | the_machine => "machine"
  | the_cluster => "cluster"
  | the_machine_record => "aws machine"
  | the_cluster_record => "aws cluster"
  end.

Definition MissingInputError (c : collaborator) : error :=
  errors_New (collaborator_name c ++ " is required when creating a MachineScope").

(** The mutators of the scope and their arguments. *)
Inductive mutator :=
  | CallSetProviderID (v : string)
  | CallSetInstanceState (v : string)
  | CallSetReady
  | CallSetErrorMessage (v : option error)
  | CallSetErrorReason (v : string)
  | CallSetAnnotation (key value : string)
  | CallSetAddresses (addrs : ref).

(** One call of a mutator; [None] is a nil dereference. *)
Definition apply_mutator (μ : mutator) (m : MachineScope.t) (h : Heap)
    : option (MachineScope.t * Heap) :=
  match μ with
  | CallSetProviderID v => Some (SetProviderID v m h)
  | CallSetInstanceState v => Some (SetInstanceState v m h)
  | CallSetReady => Some (SetReady m, h)
  | CallSetErrorMessage v => SetErrorMessage v m h
  | CallSetErrorReason v => Some (SetErrorReason v m h)
  | CallSetAnnotation key value => Some (SetAnnotation key value m h)
  | CallSetAddresses addrs => Some (SetAddresses addrs m, h)
  end.

(** A sequence of calls, first to last. *)
Fixpoint apply_mutators (μs : list mutator) (m : MachineScope.t) (h : Heap)
    : option (MachineScope.t * Heap) :=
  match μs with
  | [] => Some (m, h)
  | μ :: rest =>
      match apply_mutator μ m h with
      | Some (m', h') => apply_mutators rest m' h'
      | None => None
      end
  end.

(** A mutator seen as a program over the backing store: it makes no call. *)
Definition mutator_program (μ : mutator) (m : MachineScope.t) (h : Heap)
    : io (option (MachineScope.t * Heap)) :=
  Ret (apply_mutator μ m h).

(** The fields of the machine record and what they hold. *)
Inductive fld :=
  | FName | FNamespace | FLabels | FAnnotations
  | FProviderID | FAdditionalTags
  | FReady | FInstanceState | FErrorReason | FErrorMessage | FAddresses.

#[global] Instance fld_eq_dec : EqDecision fld.
Proof. solve_decision. Defined.

Inductive fval := VString (s : string) | VBool (b : bool) | VRef (r : ref).

Definition get_field (f : fld) (r : AWSMachine.t) : fval :=
  let meta := AWSMachine.ObjectMeta r in
  let spec := AWSMachine.Spec r in
  let status := AWSMachine.Status r in
  match f with
  | FName => VString (ObjectMeta.Name meta)
  | FNamespace => VString (ObjectMeta.Namespace meta)
  | FLabels => VRef (ObjectMeta.Labels meta)
  | FAnnotations => VRef (ObjectMeta.Annotations meta)
  | FProviderID => VRef (AWSMachineSpec.ProviderID spec)
  | FAdditionalTags => VRef (AWSMachineSpec.AdditionalTags spec)
  | FReady => VBool (AWSMachineStatus.Ready status)
  | FInstanceState => VRef (AWSMachineStatus.InstanceState status)
  | FErrorReason => VRef (AWSMachineStatus.ErrorReason status)
  | FErrorMessage => VRef (AWSMachineStatus.ErrorMessage status)
  | FAddresses => VRef (AWSMachineStatus.Addresses status)
  end.

(** The field each mutator is for. *)
Definition designated (μ : mutator) : fld :=
  match μ with
  | CallSetProviderID _ => FProviderID
  | CallSetInstanceState _ => FInstanceState
  | CallSetReady => FReady
  | CallSetErrorMessage _ => FErrorMessage
  | CallSetErrorReason _ => FErrorReason
  | CallSetAnnotation _ _ => FAnnotations
  | CallSetAddresses _ => FAddresses
  end.

(** The one existing heap cell a mutator may write: the annotation map,
    for [SetAnnotation] on a record that has one. *)
Definition written_in_place (μ : mutator) (m : MachineScope.t) : ref :=
  match μ with
  | CallSetAnnotation _ _ =>
      ObjectMeta.Annotations (AWSMachine.ObjectMeta (MachineScope.AWSMachine m))
  | _ => None
  end.


(** What a mutator needs of its argument: a slice handed to [SetAddresses]
    is allocated. *)
Definition mutator_wf (h : Heap) (μ : mutator) : Prop :=
  match μ with
  | CallSetAddresses addrs => allocated h addrs
  | _ => True
  end.

(** The references a scope holds are allocated. *)
Definition meta_wf (h : Heap) (meta : ObjectMeta.t) : Prop :=
  allocated h (ObjectMeta.Labels meta) ∧ allocated h (ObjectMeta.Annotations meta).

Definition scope_wf (h : Heap) (m : MachineScope.t) : Prop :=
  let r := MachineScope.AWSMachine m in
  meta_wf h (Cluster.ObjectMeta (MachineScope.Cluster m)) ∧
  meta_wf h (Machine.ObjectMeta (MachineScope.Machine m)) ∧
  meta_wf h (AWSCluster.ObjectMeta (MachineScope.AWSCluster m)) ∧
  allocated h (AWSClusterSpec.AdditionalTags (AWSCluster.Spec (MachineScope.AWSCluster m))) ∧
  meta_wf h (AWSMachine.ObjectMeta r) ∧
  allocated h (AWSMachineSpec.ProviderID (AWSMachine.Spec r)) ∧
  allocated h (AWSMachineSpec.AdditionalTags (AWSMachine.Spec r)) ∧
  allocated h (AWSMachineStatus.InstanceState (AWSMachine.Status r)) ∧
  allocated h (AWSMachineStatus.ErrorReason (AWSMachine.Status r)) ∧
  allocated h (AWSMachineStatus.ErrorMessage (AWSMachine.Status r)) ∧
  allocated h (AWSMachineStatus.Addresses (AWSMachine.Status r)).

(** The effective tags in the words of the specification: the cluster-level
    tags, then the machine-level tags upserted over them. *)
Definition effective_tags (cluster machine : gmap string string) (k : string) : option string :=
  match machine !! k with
  | Some v => Some v
  | None => cluster !! k
  end.

(** ** Concrete data for the examples *)

Module Example.
(** A heap with the cluster's tags at 1, the machine's tags at 2 and the
    owner machine's labels at 3. *)
Definition heap : Heap :=
  {| cells :=
       <[1%positive := CMap (<["env" := "prod"]> (<["team" := "x"]> ∅))]>
       (<[2%positive := CMap (<["env" := "dev"]> ∅)]>
       (<[3%positive := CMap (<[MachineControlPlaneLabelName := "true"]> ∅)]> ∅));
     next := 4%positive |}.

Definition cluster : Cluster.t :=
  Cluster.mk (ObjectMeta.mk "c1" "default" None None).

Definition machine : Machine.t :=
  Machine.mk (ObjectMeta.mk "m1" "default" (Some 3%positive) None).

(** An owner machine without labels. *)
Definition worker : Machine.t :=
  Machine.mk (ObjectMeta.mk "m2" "default" None None).

Definition awsCluster : AWSCluster.t :=
  AWSCluster.mk (ObjectMeta.mk "c1" "default" None None)
    (AWSClusterSpec.mk (Some 1%positive)).

Definition awsMachine : AWSMachine.t :=
  AWSMachine.mk (ObjectMeta.mk "m1" "default" None None)
    (AWSMachineSpec.mk None (Some 2%positive))
    (AWSMachineStatus.mk false None None None None).

Definition params : MachineScopeParams.t :=
  MachineScopeParams.mk (Some 7) None (Some cluster) (Some machine)
    (Some awsCluster) (Some awsMachine).

(** The same bundle without the owner machine and the cluster record. *)
Definition incomplete : MachineScopeParams.t :=
  MachineScopeParams.mk (Some 7) None (Some cluster) None None (Some awsMachine).

(** A converter that accepts every record, and one that rejects the
    records that carry no error message. *)
Definition accept_all (_ : gmap string json) : option error := None.

Definition reject_healthy (u : gmap string json) : option error :=
  match u !! "status.errorMessage" with
  | Some _ => None
  | None => Some (errors_New "unsupported record")
  end.

Definition scope : MachineScope.t :=
  MachineScope.mk klogr_Logger 7
    (Some (Helper.mk 7 (ToUnstructured heap awsMachine)))
    cluster machine awsCluster awsMachine.

(** A backing store holding one record.  It refuses a conditional update
    when it cannot be reached and when another actor has changed the
    record since it was fetched. *)
Record Store := mkStore
  { online : bool;
    changed_by_other : bool;
    stored : gmap string json }.

Definition conditionalUpdate (c : Call) (σ : Store) : option error * Store :=
  if negb (online σ) then (Some TransportError, σ)
  else if changed_by_other σ then (Some ConflictError, σ)
  else (None, mkStore true false (apply_patch (call_patch c) (stored σ))).


End Example.

(** ** Vocabulary of the composition properties *)

(** The references of the machine record that the accessors follow. *)
Definition annotations_of (m : MachineScope.t) : ref :=
  ObjectMeta.Annotations (AWSMachine.ObjectMeta (MachineScope.AWSMachine m)).

Definition provider_ref (m : MachineScope.t) : ref :=
  AWSMachineSpec.ProviderID (AWSMachine.Spec (MachineScope.AWSMachine m)).

Definition owner_labels (m : MachineScope.t) : ref :=
  ObjectMeta.Labels (Machine.ObjectMeta (MachineScope.Machine m)).

(** What a reader finds in the designated field after a call of [μ]: the
    argument of the call. *)
Definition reads_back (μ : mutator) (m : MachineScope.t) (h : Heap) : Prop :=
  let status := AWSMachine.Status (MachineScope.AWSMachine m) in
  match μ with
  | CallSetProviderID v => is_Some (provider_ref m) ∧ GetProviderID m h = v
  | CallSetInstanceState v =>
      ∃ l, GetInstanceState m = Some l ∧ load_string h l = v
  | CallSetReady => AWSMachineStatus.Ready status = true
  | CallSetErrorMessage v =>
      ∃ e l, v = Some e ∧ AWSMachineStatus.ErrorMessage status = Some l
             ∧ load_string h l = Error e
  | CallSetErrorReason v =>
      ∃ l, AWSMachineStatus.ErrorReason status = Some l ∧ load_string h l = v
  | CallSetAnnotation key value =>
      ∃ l, annotations_of m = Some l ∧ load_map h l !! key = Some value
  | CallSetAddresses addrs => AWSMachineStatus.Addresses status = addrs
  end.

(** The string a pointer returned by an accessor points to, if any. *)
Definition pointee (h : Heap) (r : ref) : option string :=
  match r with Some l => Some (load_string h l) | None => None end.

(** Two references that are not the same object (nil is no object). *)
Definition separate (r1 r2 : ref) : Prop :=
  ∀ l, r1 = Some l → r2 ≠ Some l.

(** Go's typing of references, seen in the heap: a [*string] that is not
    nil points to an allocated string cell, a map that is not nil to an
    allocated map cell. *)
Definition points_to_string (h : Heap) (r : ref) : Prop :=
  ∀ l, r = Some l → allocated h (Some l) ∧ ∃ s, cells h !! l = Some (CString s).

Definition points_to_map (h : Heap) (r : ref) : Prop :=
  ∀ l, r = Some l → allocated h (Some l) ∧ ∃ m, cells h !! l = Some (CMap m).

(** The addresses the record holds in the fields that the mutators fill
    with new cells: the provider ID, the state, the error reason, the error
    message and the annotation map.  (The address slice is the caller's.) *)
Definition stored_pointers (m : MachineScope.t) : list loc :=
  let status := AWSMachine.Status (MachineScope.AWSMachine m) in
  omap id
    [provider_ref m;
     AWSMachineStatus.InstanceState status;
     AWSMachineStatus.ErrorReason status;
     AWSMachineStatus.ErrorMessage status;
     annotations_of m].

(** No two of these fields share a cell, and all the cells exist. *)
Definition unshared (h : Heap) (m : MachineScope.t) : Prop :=
  NoDup (stored_pointers m)
  ∧ Forall (λ l, allocated h (Some l)) (stored_pointers m).

(** * Properties *)

(** ** The heap *)

Lemma alloc_next c h : next (alloc c h).2 = Pos.succ (next h).
Proof. reflexivity. Qed.

Lemma alloc_cells_other c h l :
  l ≠ next h → cells (alloc c h).2 !! l = cells h !! l.
Proof. intros Hne. simpl. by rewrite lookup_insert_ne. Qed.

Lemma alloc_cells_new c h : cells (alloc c h).2 !! next h = Some c.
Proof. simpl. by rewrite lookup_insert_eq. Qed.

Lemma store_cells_other l c h l' :
  l' ≠ l → cells (store_cell l c h) !! l' = cells h !! l'.
Proof. intros Hne. simpl. by rewrite lookup_insert_ne. Qed.

Lemma load_map_store l m h : load_map (store_cell l (CMap m) h) l = m.
Proof. unfold load_map. simpl. by rewrite lookup_insert_eq. Qed.

Lemma load_string_alloc s h : load_string (alloc (CString s) h).2 (next h) = s.
Proof. unfold load_string. by rewrite alloc_cells_new. Qed.

Lemma load_map_alloc m h : load_map (alloc (CMap m) h).2 (next h) = m.
Proof. unfold load_map. by rewrite alloc_cells_new. Qed.

Lemma allocated_ne h l : allocated h (Some l) → l ≠ next h.
Proof. simpl. lia. Qed.

Lemma allocated_mono h h' r :
  (next h ≤ next h')%positive → allocated h r → allocated h' r.
Proof. destruct r; simpl; [lia | done]. Qed.

(** Cells that agree give maps that agree. *)
Lemma map_of_agree h h' r :
  (∀ l, r = Some l → cells h' !! l = cells h !! l) → map_of h' r = map_of h r.
Proof.
  destruct r as [l|]; [|done]. intros H. unfold map_of, load_map.
  by rewrite (H l eq_refl).
Qed.

(** ** Construction: missing inputs *)

Lemma first_absent_checked_first (params : MachineScopeParams.t) c :
  first_absent params = Some c →
  ∃ pre post, required_order = (pre ++ c :: post)%list
              ∧ Forall (λ c', absent params c' = false) pre
              ∧ absent params c = true.
Proof.
  unfold first_absent, required_order. cbn [List.find].
  destruct (absent params the_client) eqn:H1.
  { intros [= <-]. by exists [], [the_machine; the_cluster; the_machine_record; the_cluster_record]. }
  destruct (absent params the_machine) eqn:H2.
  { intros [= <-].
    exists [the_client], [the_cluster; the_machine_record; the_cluster_record].
    repeat split; auto. }
  destruct (absent params the_cluster) eqn:H3.
  { intros [= <-].
    exists [the_client; the_machine], [the_machine_record; the_cluster_record].
    repeat split; auto. }
  destruct (absent params the_machine_record) eqn:H4.
  { intros [= <-].
    exists [the_client; the_machine; the_cluster], [the_cluster_record].
    repeat split; auto. }
  destruct (absent params the_cluster_record) eqn:H5; [|done].
  intros [= <-].
  exists [the_client; the_machine; the_cluster; the_machine_record], [].
  repeat split; auto.
Qed.

Lemma some_absent_first_absent (params : MachineScopeParams.t) c :
  absent params c = true → is_Some (first_absent params).
Proof.
  intros Hc. destruct (first_absent params) as [c'|] eqn:Hf; [by eexists|].
  exfalso. unfold first_absent in Hf.
  pose proof (find_none _ _ Hf c) as Hn.
  rewrite Hn in Hc; [done|]. unfold required_order. destruct c; simpl; tauto.
Qed.

Lemma NewMachineScope_first_absent snapshot_error params h c :
  first_absent params = Some c →
  NewMachineScope snapshot_error params h = (None, Some (MissingInputError c)).
Proof.
  destruct params as [cl lg clu ma acl am].
  unfold first_absent, NewMachineScope, required_order. simpl.
  destruct cl, ma, clu, am, acl; simpl; intros [= <-]; reflexivity.
Qed.

(** C2.  A bundle that misses at least one of the five required
    collaborators is refused: construction returns no scope, and the error
    is the missing-input error that names the first absent collaborator in
    the order client, machine, cluster, machine-record, cluster-record
    (every collaborator checked before it is present). *)
Theorem NewMachineScope_missing_input
    (snapshot_error : gmap string json → option error)
    (params : MachineScopeParams.t) (h : Heap) :
  (∃ c, absent params c = true) →
  ∃ c pre post,
    required_order = (pre ++ c :: post)%list
    ∧ Forall (λ c', absent params c' = false) pre
    ∧ absent params c = true
    ∧ NewMachineScope snapshot_error params h = (None, Some (MissingInputError c))
    ∧ (NewMachineScope snapshot_error params h).1 = None.
Proof.
  intros [c0 Hc0].
  destruct (some_absent_first_absent params c0 Hc0) as [c Hc].
  destruct (first_absent_checked_first params c Hc) as (pre & post & Hord & Hpre & Habs).
  exists c, pre, post.
  rewrite (NewMachineScope_first_absent snapshot_error params h c Hc).
  by repeat split.
Qed.

(** The bundle without owner machine and cluster record is refused for the
    owner machine, the first of the two in the order. *)
Lemma NewMachineScope_missing_input_witness :
  ∃ c pre post,
    required_order = (pre ++ c :: post)%list
    ∧ Forall (λ c', absent Example.incomplete c' = false) pre
    ∧ absent Example.incomplete c = true
    ∧ NewMachineScope Example.accept_all Example.incomplete Example.heap
      = (None, Some (MissingInputError c))
    ∧ (NewMachineScope Example.accept_all Example.incomplete Example.heap).1 = None.
Proof.
  apply (NewMachineScope_missing_input Example.accept_all Example.incomplete Example.heap).
  exists the_machine. reflexivity.
Defined.

(** ** What the mutators leave alone in the scope *)

(** Case analysis on a call [Hrun : apply_mutator μ m h = Some (m', h')]:
    one goal per mutator that returns, with [m'] and [h'] replaced by what
    the mutator built ([SetAnnotation] gives two, for a record with and
    without an annotation map). *)
Ltac mutator_cases μ Hrun :=
  destruct μ as [?v|?v| |[?e|]|?v|?key ?value|?addrs];
  simpl in Hrun; try discriminate Hrun;
  unfold SetAnnotation in Hrun;
  try destruct (ObjectMeta.Annotations _) as [?la|] eqn:?Hann;
  injection Hrun as <- <-.

Lemma apply_mutator_scope (μ : mutator) m h m' h' :
  apply_mutator μ m h = Some (m', h') →
  MachineScope.Logger m' = MachineScope.Logger m
  ∧ MachineScope.client m' = MachineScope.client m
  ∧ MachineScope.patchHelper m' = MachineScope.patchHelper m
  ∧ MachineScope.Cluster m' = MachineScope.Cluster m
  ∧ MachineScope.Machine m' = MachineScope.Machine m
  ∧ MachineScope.AWSCluster m' = MachineScope.AWSCluster m.
Proof. intros Hrun. mutator_cases μ Hrun; done. Qed.

Lemma apply_mutators_patchHelper (μs : list mutator) m h m' h' :
  apply_mutators μs m h = Some (m', h') →
  MachineScope.patchHelper m' = MachineScope.patchHelper m.
Proof.
  revert m h. induction μs as [|μ rest IH]; intros m h; simpl.
  - by intros [= <- <-].
  - destruct (apply_mutator μ m h) as [[m1 h1]|] eqn:Hμ; [|done].
    intros Hrest. rewrite (IH _ _ Hrest).
    by destruct (apply_mutator_scope μ m h m1 h1 Hμ) as (_ & _ & -> & _).
Qed.

Lemma wraps_refl e : wraps e e = true.
Proof. destruct e; cbn [wraps]; by rewrite bool_decide_eq_true_2. Qed.

Lemma wraps_Wrap e target msg :
  wraps e target = true → wraps (errors_Wrap e msg) target = true.
Proof. intros H. cbn [wraps]. rewrite H. apply orb_true_r. Qed.

(** ** Construction: the patch helper *)

(** C8.  With the five required collaborators present, construction is
    decided by the initialisation of the patch helper on the machine record
    as it is at that moment.  When the helper cannot be initialised, no
    scope is returned and the error wraps the helper's error.  Otherwise
    the scope is returned without error, it holds the supplied
    collaborators, and its helper is bound to the field values the record
    had at construction: no later sequence of mutator calls changes what
    the helper holds. *)
Theorem NewMachineScope_patch_helper
    (snapshot_error : gmap string json → option error)
    (params : MachineScopeParams.t) (h : Heap)
    client machine cluster awsMachine awsCluster :
  MachineScopeParams.Client params = Some client →
  MachineScopeParams.Machine params = Some machine →
  MachineScopeParams.Cluster params = Some cluster →
  MachineScopeParams.AWSMachine params = Some awsMachine →
  MachineScopeParams.AWSCluster params = Some awsCluster →
  (∀ err, snapshot_error (ToUnstructured h awsMachine) = Some err →
     NewMachineScope snapshot_error params h
     = (None, Some (errors_Wrap err "failed to init patch helper"))
     ∧ wraps (errors_Wrap err "failed to init patch helper") err = true
     ∧ errors_Cause (errors_Wrap err "failed to init patch helper") = errors_Cause err)
  ∧ (snapshot_error (ToUnstructured h awsMachine) = None →
     ∃ m, NewMachineScope snapshot_error params h = (Some m, None)
          ∧ MachineScope.patchHelper m
            = Some (Helper.mk client (ToUnstructured h awsMachine))
          ∧ MachineScope.client m = client
          ∧ MachineScope.Machine m = machine
          ∧ MachineScope.Cluster m = cluster
          ∧ MachineScope.AWSMachine m = awsMachine
          ∧ MachineScope.AWSCluster m = awsCluster
          ∧ ∀ μs m' h', apply_mutators μs m h = Some (m', h') →
              MachineScope.patchHelper m'
              = Some (Helper.mk client (ToUnstructured h awsMachine))).
Proof.
  intros Hcl Hma Hclu Ham Hacl.
  unfold NewMachineScope, patch_NewHelper.
  rewrite Hcl, Hma, Hclu, Ham, Hacl. split.
  - intros err Herr. rewrite Herr. split; [done|]. split; [|done].
    apply wraps_Wrap, wraps_refl.
  - intros Hok. rewrite Hok. eexists. repeat split.
    intros μs m' h' Hμs. by rewrite (apply_mutators_patchHelper _ _ _ _ _ Hμs).
Qed.

(** The complete example bundle is refused by the converter that rejects
    records without an error message, and accepted by the one that accepts
    every record. *)
Lemma NewMachineScope_patch_helper_witness :
  (NewMachineScope Example.reject_healthy Example.params Example.heap
   = (None, Some (errors_Wrap (errors_New "unsupported record")
                    "failed to init patch helper")))
  ∧ (∃ m, NewMachineScope Example.accept_all Example.params Example.heap = (Some m, None)
          ∧ MachineScope.patchHelper m
            = Some (Helper.mk 7 (ToUnstructured Example.heap Example.awsMachine))
          ∧ ∀ μs m' h', apply_mutators μs m Example.heap = Some (m', h') →
              MachineScope.patchHelper m'
              = Some (Helper.mk 7 (ToUnstructured Example.heap Example.awsMachine))).
Proof.
  split.
  - apply (NewMachineScope_patch_helper Example.reject_healthy Example.params
             Example.heap 7 Example.machine Example.cluster Example.awsMachine
             Example.awsCluster); reflexivity.
  - destruct (NewMachineScope_patch_helper Example.accept_all Example.params
                Example.heap 7 Example.machine Example.cluster Example.awsMachine
                Example.awsCluster eq_refl eq_refl eq_refl eq_refl eq_refl)
      as [_ Hok].
    destruct (Hok eq_refl) as (m & Hm & Hhelper & _ & _ & _ & _ & _ & Hkeep).
    exists m. auto.
Defined.

(** ** Tag merge *)

Lemma upsert_all_union (t other : gmap string string) :
  map_fold (λ k v acc, <[k := v]> acc) t other = other ∪ t.
Proof.
  apply (map_fold_weak_ind (λ r (m : gmap string string), r = m ∪ t)).
  - by rewrite (left_id_L ∅ (∪)).
  - intros i x m r _ ->. by rewrite insert_union_l.
Qed.

Lemma Tags_Merge_load t other h :
  load_map (Tags_Merge t other h) t = map_of h other ∪ load_map h t.
Proof. unfold Tags_Merge. by rewrite load_map_store, upsert_all_union. Qed.

Lemma Tags_Merge_other t other h l :
  l ≠ t → cells (Tags_Merge t other h) !! l = cells h !! l.
Proof. apply store_cells_other. Qed.

Lemma effective_tags_union (cluster machine : gmap string string) k :
  (machine ∪ cluster) !! k = effective_tags cluster machine k.
Proof.
  unfold effective_tags. rewrite lookup_union.
  destruct (machine !! k), (cluster !! k); done.
Qed.

Lemma AdditionalTags_run m h :
  let cref := AWSClusterSpec.AdditionalTags (AWSCluster.Spec (MachineScope.AWSCluster m)) in
  let mref := AWSMachineSpec.AdditionalTags (AWSMachine.Spec (MachineScope.AWSMachine m)) in
  allocated h cref → allocated h mref →
  (AdditionalTags m h).1 = Some (next h)
  ∧ next (AdditionalTags m h).2 = Pos.succ (next h)
  ∧ (∀ l, l ≠ next h → cells (AdditionalTags m h).2 !! l = cells h !! l)
  ∧ load_map (AdditionalTags m h).2 (next h) = map_of h mref ∪ map_of h cref.
Proof.
  intros cref mref Hc Hm. unfold AdditionalTags. fold cref mref.
  cbn [alloc fst snd].
  set (h0 := {| cells := <[next h:=CMap ∅]> (cells h); next := Pos.succ (next h) |}).
  assert (H0 : ∀ l, l ≠ next h → cells h0 !! l = cells h !! l).
  { intros l Hl. apply (alloc_cells_other (CMap ∅) h l Hl). }
  assert (Hc0 : map_of h0 cref = map_of h cref).
  { apply map_of_agree. intros l ->. apply H0. by apply allocated_ne. }
  set (h1 := Tags_Merge (next h) cref h0).
  assert (H1 : ∀ l, l ≠ next h → cells h1 !! l = cells h !! l).
  { intros l Hl. unfold h1. rewrite Tags_Merge_other by done. by apply H0. }
  assert (Hm1 : map_of h1 mref = map_of h mref).
  { apply map_of_agree. intros l ->. apply H1. by apply allocated_ne. }
  repeat split.
  - intros l Hl. rewrite Tags_Merge_other by done. by apply H1.
  - rewrite Tags_Merge_load, Hm1. unfold h1.
    rewrite Tags_Merge_load, Hc0.
    replace (load_map h0 (next h)) with (∅ : gmap string string)
      by (symmetry; apply (load_map_alloc ∅ h)).
    by rewrite (right_id_L ∅ (∪)).
Qed.

(** C3.  On a scope whose two tag maps are allocated (each may be nil or
    empty), [AdditionalTags] returns a non-nil map at an address that did
    not exist before the call, so it is none of the caller's maps, and it
    writes no other cell.  The map is the cluster-level tags with the
    machine-level tags upserted over them: a key of the machine-level tags
    has the machine-level value, any other key has the cluster-level value
    if there is one.  A second call on the resulting heap returns another
    new map with the same contents. *)
Theorem AdditionalTags_merge (m : MachineScope.t) (h : Heap) :
  let cref := AWSClusterSpec.AdditionalTags (AWSCluster.Spec (MachineScope.AWSCluster m)) in
  let mref := AWSMachineSpec.AdditionalTags (AWSMachine.Spec (MachineScope.AWSMachine m)) in
  allocated h cref → allocated h mref →
  ∃ l h',
    AdditionalTags m h = (Some l, h')
    ∧ ¬ allocated h (Some l)
    ∧ (∀ l', l' ≠ l → cells h' !! l' = cells h !! l')
    ∧ load_map h' l = map_of h mref ∪ map_of h cref
    ∧ (∀ k, load_map h' l !! k = effective_tags (map_of h cref) (map_of h mref) k)
    ∧ (∀ k v, map_of h mref !! k = Some v → load_map h' l !! k = Some v)
    ∧ (∀ k, map_of h mref !! k = None → load_map h' l !! k = map_of h cref !! k)
    ∧ ∃ l2 h2, AdditionalTags m h' = (Some l2, h2)
               ∧ l2 ≠ l
               ∧ load_map h2 l2 = load_map h' l.
Proof.
  intros cref mref Hc Hm.
  destruct (AdditionalTags_run m h Hc Hm) as (Hl & Hnext & Hother & Hload).
  fold cref mref in Hload.
  destruct (AdditionalTags m h) as [r h'] eqn:Hrun. simpl in *. subst r.
  exists (next h), h'.
  assert (Hk : ∀ k, load_map h' (next h) !! k
                    = effective_tags (map_of h cref) (map_of h mref) k).
  { intros k. rewrite Hload. apply effective_tags_union. }
  split; [done|]. split; [simpl; lia|]. split; [done|]. split; [done|].
  split; [done|]. split.
  { intros k v Hv. rewrite Hk. unfold effective_tags. by rewrite Hv. }
  split.
  { intros k Hv. rewrite Hk. unfold effective_tags. by rewrite Hv. }
  assert (Hc' : allocated h' cref).
  { apply (allocated_mono h); [lia | done]. }
  assert (Hm' : allocated h' mref).
  { apply (allocated_mono h); [lia | done]. }
  destruct (AdditionalTags_run m h' Hc' Hm') as (Hl2 & _ & _ & Hload2).
  fold cref mref in Hload2.
  destruct (AdditionalTags m h') as [r2 h2] eqn:Hrun2. simpl in *. subst r2.
  exists (next h'), h2. split; [done|]. split; [lia|].
  rewrite Hload2, Hload. f_equal; apply map_of_agree; intros l ->; apply Hother.
  - by apply allocated_ne.
  - by apply allocated_ne.
Qed.

(** The example of the specification: cluster tags env=prod, team=x and
    machine tags env=dev give env=dev, team=x. *)
Lemma AdditionalTags_merge_witness :
  ∃ l h',
    AdditionalTags Example.scope Example.heap = (Some l, h')
    ∧ ¬ allocated Example.heap (Some l)
    ∧ load_map h' l = <["env" := "dev"]> (<["team" := "x"]> ∅)
    ∧ ∃ l2 h2, AdditionalTags Example.scope h' = (Some l2, h2)
               ∧ l2 ≠ l
               ∧ load_map h2 l2 = load_map h' l.
Proof.
  destruct (AdditionalTags_merge Example.scope Example.heap)
    as (l & h' & Hrun & Hfresh & _ & Hload & _ & _ & _ & Hagain).
  - simpl. lia.
  - simpl. lia.
  - exists l, h'. split; [done|]. split; [done|]. split; [|done].
    rewrite Hload. reflexivity.
Defined.

(** ** Provider and instance identifiers *)

Lemma GetProviderID_SetProviderID v m h :
  GetProviderID (SetProviderID v m h).1 (SetProviderID v m h).2 = v.
Proof. unfold GetProviderID, SetProviderID. simpl. apply load_string_alloc. Qed.

Lemma NewProviderID_result s :
  (∃ p, noderefutil_NewProviderID s = (Some p, None))
  ∨ (∃ e, noderefutil_NewProviderID s = (None, Some e)).
Proof.
  unfold noderefutil_NewProviderID.
  destruct (String.eqb s ""); [right; by eexists|].
  destruct (index 0 "://" s) as [i|]; [|right; by eexists].
  destruct (_ || _); [right | left]; by eexists.
Qed.

Lemma GetInstanceID_parse_error m h err :
  (noderefutil_NewProviderID (GetProviderID m h)).2 = Some err →
  GetInstanceID m h = Some (None, h).
Proof.
  unfold GetInstanceID.
  destruct (noderefutil_NewProviderID (GetProviderID m h)) as [parsed e].
  simpl. by intros ->.
Qed.

Lemma GetInstanceID_parsed m h p :
  noderefutil_NewProviderID (GetProviderID m h) = (Some p, None) →
  GetInstanceID m h = Some (Some (next h), (alloc (CString (ProviderID.id p)) h).2).
Proof. unfold GetInstanceID. by intros ->. Qed.

(** C4.  On any scope, after [SetProviderID "aws:///us-east-1a/i-0123"] the
    instance identifier is a pointer to the string "i-0123"; after
    [SetProviderID "not-a-valid-id"] it is nil, the call returns normally
    and leaves the heap as it was. *)
Theorem SetProviderID_then_GetInstanceID (m : MachineScope.t) (h : Heap) :
  (∃ l h2,
     GetInstanceID (SetProviderID "aws:///us-east-1a/i-0123" m h).1
                   (SetProviderID "aws:///us-east-1a/i-0123" m h).2
     = Some (Some l, h2)
     ∧ load_string h2 l = "i-0123")
  ∧ GetInstanceID (SetProviderID "not-a-valid-id" m h).1
                  (SetProviderID "not-a-valid-id" m h).2
    = Some (None, (SetProviderID "not-a-valid-id" m h).2).
Proof.
  split.
  - eexists _, _. split.
    + apply (GetInstanceID_parsed _ _
               (ProviderID.mk "aws:///us-east-1a/i-0123" "aws" "i-0123")).
      by rewrite GetProviderID_SetProviderID.
    + apply load_string_alloc.
  - apply (GetInstanceID_parse_error _ _ ErrInvalidProviderID).
    by rewrite GetProviderID_SetProviderID.
Qed.

(** C5.  [GetProviderID] is a total function: it returns the empty string
    when the field is unset and the stored string otherwise.
    [GetInstanceID] always returns, without an error value in its result;
    it returns nil, and leaves the heap as it was, when the field is unset
    and whenever the stored string fails to parse. *)
Theorem GetProviderID_GetInstanceID_absent (m : MachineScope.t) (h : Heap) :
  let stored := AWSMachineSpec.ProviderID (AWSMachine.Spec (MachineScope.AWSMachine m)) in
  (stored = None → GetProviderID m h = "")
  ∧ (∀ l, stored = Some l → GetProviderID m h = load_string h l)
  ∧ is_Some (GetInstanceID m h)
  ∧ (stored = None → GetInstanceID m h = Some (None, h))
  ∧ (∀ err, (noderefutil_NewProviderID (GetProviderID m h)).2 = Some err →
       GetInstanceID m h = Some (None, h)).
Proof.
  intros stored.
  assert (Hunset : stored = None → GetProviderID m h = "").
  { unfold GetProviderID. fold stored. by intros ->. }
  split; [done|]. split.
  { intros l Hl. unfold GetProviderID. fold stored. by rewrite Hl. }
  split.
  { destruct (NewProviderID_result (GetProviderID m h)) as [[p Hp]|[e He]].
    - rewrite (GetInstanceID_parsed m h p Hp). by eexists.
    - rewrite (GetInstanceID_parse_error m h e); [by eexists | by rewrite He]. }
  split; [|apply GetInstanceID_parse_error].
  intros Hnone. apply (GetInstanceID_parse_error m h ErrEmptyProviderID).
  by rewrite (Hunset Hnone).
Qed.

(** The example scope has no provider ID: both accessors report it as
    absent. *)
Lemma GetProviderID_GetInstanceID_absent_witness :
  GetProviderID Example.scope Example.heap = ""
  ∧ GetInstanceID Example.scope Example.heap = Some (None, Example.heap).
Proof.
  destruct (GetProviderID_GetInstanceID_absent Example.scope Example.heap)
    as (Hunset & _ & _ & Hnil & _).
  split; [apply Hunset | apply Hnil]; reflexivity.
Defined.

(** ** Role *)

(** C6.  [Role] is "control-plane" exactly when [IsControlPlane] is true
    and "node" otherwise; an owner machine without the role marker is not a
    control plane machine and has role "node". *)
Theorem Role_iff_IsControlPlane (m : MachineScope.t) (h : Heap) :
  (Role m h = "control-plane" ↔ IsControlPlane m h = true)
  ∧ (Role m h = "node" ↔ IsControlPlane m h = false)
  ∧ (map_of h (ObjectMeta.Labels (Machine.ObjectMeta (MachineScope.Machine m)))
       !! MachineControlPlaneLabelName = None →
     IsControlPlane m h = false ∧ Role m h = "node").
Proof.
  unfold Role, IsControlPlane.
  split; [|split].
  - destruct (util_IsControlPlaneMachine h (MachineScope.Machine m)); split; done.
  - destruct (util_IsControlPlaneMachine h (MachineScope.Machine m)); split; done.
  - intros Habsent. unfold util_IsControlPlaneMachine. by rewrite Habsent.
Qed.

(** The example owner machine carries the marker; a scope around an owner
    machine without labels has role "node". *)
Lemma Role_iff_IsControlPlane_witness :
  Role Example.scope Example.heap = "control-plane"
  ∧ Role (MachineScope.mk klogr_Logger 7 None Example.cluster Example.worker
            Example.awsCluster Example.awsMachine) Example.heap = "node".
Proof.
  split.
  - apply (Role_iff_IsControlPlane Example.scope Example.heap). reflexivity.
  - apply (Role_iff_IsControlPlane
             (MachineScope.mk klogr_Logger 7 None Example.cluster Example.worker
                Example.awsCluster Example.awsMachine) Example.heap).
    reflexivity.
Defined.

(** ** Annotations *)

Lemma SetAnnotation_run key value m h :
  let old := ObjectMeta.Annotations (AWSMachine.ObjectMeta (MachineScope.AWSMachine m)) in
  ∃ l, ObjectMeta.Annotations
         (AWSMachine.ObjectMeta (MachineScope.AWSMachine (SetAnnotation key value m h).1))
       = Some l
       ∧ load_map (SetAnnotation key value m h).2 l = <[key := value]> (map_of h old)
       ∧ (old = Some l ∨ old = None ∧ l = next h).
Proof.
  intros old. unfold SetAnnotation. fold old.
  destruct old as [l|]; cbn [alloc fst snd map_of].
  - exists l. rewrite load_map_store. auto.
  - exists (next h). rewrite load_map_store. split; [done|]. split; [|auto].
    f_equal. apply (load_map_alloc ∅ h).
Qed.

(** C7.  After [SetAnnotation key v1] the annotation map of the record is
    not nil and maps [key] to [v1], also when it was nil before the call;
    it is the old map (empty if it was nil) with [key] upserted.  A second
    call [SetAnnotation key v2] writes the same map, which then maps [key]
    to [v2]: it is the old map with [key] set to [v2], nothing of [v1] is
    left. *)
Theorem SetAnnotation_upsert (key v1 v2 : string) (m : MachineScope.t) (h : Heap) :
  let annotations m :=
    ObjectMeta.Annotations (AWSMachine.ObjectMeta (MachineScope.AWSMachine m)) in
  let old := map_of h (annotations m) in
  let s1 := SetAnnotation key v1 m h in
  let s2 := SetAnnotation key v2 s1.1 s1.2 in
  ∃ l, annotations s1.1 = Some l
       ∧ load_map s1.2 l !! key = Some v1
       ∧ load_map s1.2 l = <[key := v1]> old
       ∧ annotations s2.1 = Some l
       ∧ load_map s2.2 l !! key = Some v2
       ∧ load_map s2.2 l = <[key := v2]> old.
Proof.
  intros annotations old s1 s2.
  destruct (SetAnnotation_run key v1 m h) as (l & Hl & Hmap & _).
  fold s1 in Hl, Hmap. fold (annotations m) in Hmap. fold old in Hmap.
  destruct (SetAnnotation_run key v2 s1.1 s1.2) as (l2 & Hl2 & Hmap2 & Hsame).
  fold s2 in Hl2, Hmap2. rewrite Hl in Hmap2, Hsame.
  destruct Hsame as [[= <-]|[? _]]; [|done].
  cbn [map_of] in Hmap2. rewrite Hmap in Hmap2.
  rewrite insert_insert_eq in Hmap2.
  exists l. unfold annotations.
  rewrite Hmap, Hmap2, !lookup_insert_eq. done.
Qed.

(** ** The mutators *)

Lemma apply_mutator_returns (μ : mutator) m h :
  apply_mutator μ m h = None ↔ μ = CallSetErrorMessage None.
Proof.
  destruct μ as [v|v| |[e|]|v|key value|addrs]; simpl; split; try done.
Qed.

Lemma apply_mutator_fields (μ : mutator) m h m' h' f :
  apply_mutator μ m h = Some (m', h') →
  f ≠ designated μ →
  get_field f (MachineScope.AWSMachine m') = get_field f (MachineScope.AWSMachine m).
Proof. intros Hrun Hf. mutator_cases μ Hrun; destruct f; done. Qed.

Lemma apply_mutator_next (μ : mutator) m h m' h' :
  apply_mutator μ m h = Some (m', h') → (next h ≤ next h')%positive.
Proof. intros Hrun. mutator_cases μ Hrun; simpl; lia. Qed.

Lemma apply_mutator_cells (μ : mutator) m h m' h' l :
  apply_mutator μ m h = Some (m', h') →
  allocated h (Some l) →
  Some l ≠ written_in_place μ m →
  cells h' !! l = cells h !! l.
Proof.
  intros Hrun Hl%allocated_ne Hw.
  mutator_cases μ Hrun; simpl in *; rewrite ?lookup_insert_ne; congruence.
Qed.

(** The references of the scope stay allocated along mutator calls, so the
    hypotheses of the properties below hold in every state a reconciler can
    reach from a well-formed one. *)
Lemma apply_mutator_wf (μ : mutator) m h m' h' :
  scope_wf h m → mutator_wf h μ →
  apply_mutator μ m h = Some (m', h') →
  scope_wf h' m'.
Proof.
  intros Hwf Hμ Hrun. pose proof (apply_mutator_next μ m h m' h' Hrun) as Hnext.
  assert (Hmono : ∀ r, allocated h r → allocated h' r).
  { intros r. by apply allocated_mono. }
  mutator_cases μ Hrun; unfold scope_wf, meta_wf in *; simpl in *;
    rewrite ?Hann in *;
    intuition (try (apply Hmono; simpl; done); simpl; try lia).
Qed.

Lemma scope_wf_tags h m :
  scope_wf h m →
  allocated h (AWSClusterSpec.AdditionalTags (AWSCluster.Spec (MachineScope.AWSCluster m)))
  ∧ allocated h (AWSMachineSpec.AdditionalTags (AWSMachine.Spec (MachineScope.AWSMachine m))).
Proof. unfold scope_wf. tauto. Qed.

(** C10.  A call of a mutator that returns changes, in the scope, nothing
    but its own field of the machine record: the logger, the client, the
    patch helper with its before snapshot, the cluster, the owner machine
    and the cluster record are the same, and so is every other field of the
    machine record.  In the heap it only allocates, except that
    [SetAnnotation] writes the annotation map the record already has: every
    other allocated cell is unchanged, so every map that is not that
    annotation map reads as before.  It makes no call to the backing store.
    [SetInstanceState] stores a pointer to a new cell holding its argument,
    an address that was not allocated before the call; [SetReady] leaves
    the ready flag true. *)
Theorem mutators_frame (μ : mutator) (m : MachineScope.t) (h : Heap)
    (m' : MachineScope.t) (h' : Heap) :
  apply_mutator μ m h = Some (m', h') →
  (MachineScope.Logger m' = MachineScope.Logger m
   ∧ MachineScope.client m' = MachineScope.client m
   ∧ MachineScope.patchHelper m' = MachineScope.patchHelper m
   ∧ MachineScope.Cluster m' = MachineScope.Cluster m
   ∧ MachineScope.Machine m' = MachineScope.Machine m
   ∧ MachineScope.AWSCluster m' = MachineScope.AWSCluster m)
  ∧ (∀ f, f ≠ designated μ →
       get_field f (MachineScope.AWSMachine m') = get_field f (MachineScope.AWSMachine m))
  ∧ (∀ l, allocated h (Some l) → Some l ≠ written_in_place μ m →
       cells h' !! l = cells h !! l)
  ∧ (∀ r, allocated h r → r ≠ written_in_place μ m → map_of h' r = map_of h r)
  ∧ (∀ (Store : Type) (conditionalUpdate : Call → Store → option error * Store) σ,
       run conditionalUpdate (mutator_program μ m h) σ = (Some (m', h'), σ, []))
  ∧ (∀ v, μ = CallSetInstanceState v →
       GetInstanceState m' = Some (next h)
       ∧ ¬ allocated h (Some (next h))
       ∧ load_string h' (next h) = v)
  ∧ (μ = CallSetReady →
       AWSMachineStatus.Ready (AWSMachine.Status (MachineScope.AWSMachine m')) = true).
Proof.
  intros Hrun.
  split; [by apply (apply_mutator_scope μ m h m' h')|].
  split; [intros f; by apply (apply_mutator_fields μ m h m' h')|].
  split; [intros l; by apply (apply_mutator_cells μ m h m' h')|].
  split.
  { intros r Hr Hw. apply map_of_agree. intros l ->.
    by apply (apply_mutator_cells μ m h m' h'). }
  split.
  { intros Store cu σ. unfold mutator_program. by rewrite Hrun. }
  split.
  - intros v ->. injection Hrun as <- <-.
    split; [done|]. split; [simpl; lia|]. apply load_string_alloc.
  - intros ->. by injection Hrun as <- <-.
Qed.

(** [SetInstanceState "running"] on the example scope: the state sits in
    the new cell 4, the helper and the cluster's tags are untouched. *)
Lemma mutators_frame_witness :
  let s := SetInstanceState "running" Example.scope Example.heap in
  MachineScope.patchHelper s.1 = MachineScope.patchHelper Example.scope
  ∧ GetInstanceState s.1 = Some 4%positive
  ∧ load_string s.2 4%positive = "running"
  ∧ map_of s.2 (Some 1%positive) = map_of Example.heap (Some 1%positive).
Proof.
  intros s.
  destruct (mutators_frame (CallSetInstanceState "running") Example.scope
              Example.heap s.1 s.2 eq_refl)
    as ((_ & _ & Hhelper & _) & _ & _ & Hmaps & _ & Hstate & _).
  destruct (Hstate "running" eq_refl) as (Hptr & _ & Hload).
  split; [done|]. split; [done|]. split; [done|].
  apply Hmaps; [simpl; lia | done].
Defined.

(** ** Patches *)






(** ** Commit *)

Lemma NewMachineScope_success snapshot_error params h m :
  NewMachineScope snapshot_error params h = (Some m, None) →
  ∃ client machine cluster awsMachine awsCluster,
    MachineScopeParams.Client params = Some client
    ∧ MachineScopeParams.Machine params = Some machine
    ∧ MachineScopeParams.Cluster params = Some cluster
    ∧ MachineScopeParams.AWSMachine params = Some awsMachine
    ∧ MachineScopeParams.AWSCluster params = Some awsCluster
    ∧ snapshot_error (ToUnstructured h awsMachine) = None
    ∧ m = MachineScope.mk (default klogr_New (MachineScopeParams.Logger params))
            client (Some (Helper.mk client (ToUnstructured h awsMachine)))
            cluster machine awsCluster awsMachine.
Proof.
  destruct params as [cl lg clu ma acl am].
  unfold NewMachineScope, patch_NewHelper. simpl.
  destruct cl as [client|]; [|done]. destruct ma as [machine|]; [|done].
  destruct clu as [cluster|]; [|done]. destruct am as [awsMachine|]; [|done].
  destruct acl as [awsCluster|]; [|done].
  destruct (snapshot_error (ToUnstructured h awsMachine)) eqn:Hs; [done|].
  intros [= <-]. by exists client, machine, cluster, awsMachine, awsCluster.
Qed.






(** ** Commit and contexts *)




(** * Further properties of the scope *)

(** ** Sequences of mutator calls *)

Lemma apply_mutators_cons μ rest m h m2 h2 :
  apply_mutators (μ :: rest) m h = Some (m2, h2) →
  ∃ m1 h1, apply_mutator μ m h = Some (m1, h1)
           ∧ apply_mutators rest m1 h1 = Some (m2, h2).
Proof.
  simpl. destruct (apply_mutator μ m h) as [[m1 h1]|]; [|done].
  intros Hrest. by exists m1, h1.
Qed.

Lemma apply_mutators_scope (μs : list mutator) m h m' h' :
  apply_mutators μs m h = Some (m', h') →
  MachineScope.Logger m' = MachineScope.Logger m
  ∧ MachineScope.client m' = MachineScope.client m
  ∧ MachineScope.patchHelper m' = MachineScope.patchHelper m
  ∧ MachineScope.Cluster m' = MachineScope.Cluster m
  ∧ MachineScope.Machine m' = MachineScope.Machine m
  ∧ MachineScope.AWSCluster m' = MachineScope.AWSCluster m.
Proof.
  revert m h. induction μs as [|μ rest IH]; intros m h Hrun.
  - by injection Hrun as <- <-.
  - destruct (apply_mutators_cons _ _ _ _ _ _ Hrun) as (m1 & h1 & Hμ & Hrest).
    destruct (IH _ _ Hrest) as (-> & -> & -> & -> & -> & ->).
    by apply (apply_mutator_scope μ m h m1 h1).
Qed.

Lemma apply_mutators_fields (μs : list mutator) m h m' h' f :
  apply_mutators μs m h = Some (m', h') →
  Forall (λ μ, designated μ ≠ f) μs →
  get_field f (MachineScope.AWSMachine m') = get_field f (MachineScope.AWSMachine m).
Proof.
  revert m h. induction μs as [|μ rest IH]; intros m h Hrun Hall.
  - by injection Hrun as <- <-.
  - destruct (apply_mutators_cons _ _ _ _ _ _ Hrun) as (m1 & h1 & Hμ & Hrest).
    apply Forall_cons in Hall as [Hμf Hall].
    rewrite (IH _ _ Hrest Hall).
    apply (apply_mutator_fields μ m h m1 h1 f Hμ). congruence.
Qed.

Lemma apply_mutators_next (μs : list mutator) m h m' h' :
  apply_mutators μs m h = Some (m', h') → (next h ≤ next h')%positive.
Proof.
  revert m h. induction μs as [|μ rest IH]; intros m h Hrun.
  - injection Hrun as <- <-. lia.
  - destruct (apply_mutators_cons _ _ _ _ _ _ Hrun) as (m1 & h1 & Hμ & Hrest).
    pose proof (apply_mutator_next μ m h m1 h1 Hμ). pose proof (IH _ _ Hrest). lia.
Qed.

(** After a call, the annotation map is the one the record had, or a new
    one. *)
Lemma apply_mutator_annotations (μ : mutator) m h m' h' :
  apply_mutator μ m h = Some (m', h') →
  annotations_of m' = annotations_of m
  ∨ annotations_of m = None ∧ annotations_of m' = Some (next h).
Proof.
  intros Hrun. unfold annotations_of.
  mutator_cases μ Hrun; simpl; rewrite ?Hann; auto.
Qed.

(** A cell that is not the annotation map survives every sequence of
    calls, and never becomes the annotation map. *)
Lemma apply_mutators_cells (μs : list mutator) m h m' h' l :
  apply_mutators μs m h = Some (m', h') →
  allocated h (Some l) →
  Some l ≠ annotations_of m →
  cells h' !! l = cells h !! l ∧ Some l ≠ annotations_of m'.
Proof.
  revert m h. induction μs as [|μ rest IH]; intros m h Hrun Hl Hne.
  - by injection Hrun as <- <-.
  - destruct (apply_mutators_cons _ _ _ _ _ _ Hrun) as (m1 & h1 & Hμ & Hrest).
    assert (Hw : Some l ≠ written_in_place μ m) by (by destruct μ).
    pose proof (apply_mutator_cells μ m h m1 h1 l Hμ Hl Hw) as Hcell.
    pose proof (apply_mutator_next μ m h m1 h1 Hμ) as Hnext.
    assert (Hl1 : allocated h1 (Some l)) by (by apply (allocated_mono h)).
    assert (Hne1 : Some l ≠ annotations_of m1).
    { destruct (apply_mutator_annotations μ m h m1 h1 Hμ) as [->|[_ ->]]; [done|].
      simpl in Hl. intros [= ->]. lia. }
    destruct (IH _ _ Hrest Hl1 Hne1) as [-> Hne2]. by split.
Qed.

(** A sequence without [SetAnnotation] only allocates. *)
Lemma apply_mutators_cells_alloc (μs : list mutator) m h m' h' l :
  apply_mutators μs m h = Some (m', h') →
  Forall (λ μ, designated μ ≠ FAnnotations) μs →
  allocated h (Some l) →
  cells h' !! l = cells h !! l.
Proof.
  revert m h. induction μs as [|μ rest IH]; intros m h Hrun Hall Hl.
  - by injection Hrun as <- <-.
  - destruct (apply_mutators_cons _ _ _ _ _ _ Hrun) as (m1 & h1 & Hμ & Hrest).
    apply Forall_cons in Hall as [Hμf Hall].
    assert (Hw : Some l ≠ written_in_place μ m) by (by destruct μ).
    pose proof (apply_mutator_cells μ m h m1 h1 l Hμ Hl Hw) as Hcell.
    pose proof (apply_mutator_next μ m h m1 h1 Hμ) as Hnext.
    rewrite (IH _ _ Hrest Hall); [done|]. by apply (allocated_mono h).
Qed.

(** ** Construction: the two outcomes *)

(** X1.  [NewMachineScope] returns either a scope and no error, or an error
    and no scope; it never returns both, and never neither. *)
Theorem NewMachineScope_scope_xor_error
    (snapshot_error : gmap string json → option error)
    (params : MachineScopeParams.t) (h : Heap) :
  (∃ m, NewMachineScope snapshot_error params h = (Some m, None))
  ∨ (∃ e, NewMachineScope snapshot_error params h = (None, Some e)).
Proof.
  destruct params as [cl lg clu ma acl am].
  unfold NewMachineScope, patch_NewHelper. simpl.
  destruct cl; [|right; by eexists]. destruct ma; [|right; by eexists].
  destruct clu; [|right; by eexists]. destruct am; [|right; by eexists].
  destruct acl; [|right; by eexists].
  destruct (snapshot_error _); [right | left]; by eexists.
Qed.

(** X2.  A scope returned by [NewMachineScope] holds exactly what the
    caller supplied: the client, the four records, and the caller's logger,
    or the default [klogr] logger when the caller supplied none.  Its
    accessors read the supplied machine record, and its patch helper writes
    through the scope's own client. *)
Theorem NewMachineScope_reflects_inputs
    (snapshot_error : gmap string json → option error)
    (params : MachineScopeParams.t) (h : Heap) (m : MachineScope.t) :
  NewMachineScope snapshot_error params h = (Some m, None) →
  MachineScopeParams.Client params = Some (MachineScope.client m)
  ∧ MachineScopeParams.Machine params = Some (MachineScope.Machine m)
  ∧ MachineScopeParams.Cluster params = Some (MachineScope.Cluster m)
  ∧ MachineScopeParams.AWSMachine params = Some (MachineScope.AWSMachine m)
  ∧ MachineScopeParams.AWSCluster params = Some (MachineScope.AWSCluster m)
  ∧ (MachineScopeParams.Logger params = None → MachineScope.Logger m = klogr_New)
  ∧ (∀ lg, MachineScopeParams.Logger params = Some lg → MachineScope.Logger m = lg)
  ∧ (∃ hp, MachineScope.patchHelper m = Some hp
           ∧ Helper.client hp = MachineScope.client m)
  ∧ (∀ r, MachineScopeParams.AWSMachine params = Some r →
       Name m = ObjectMeta.Name (AWSMachine.ObjectMeta r)
       ∧ Namespace m = ObjectMeta.Namespace (AWSMachine.ObjectMeta r)
       ∧ GetInstanceState m = AWSMachineStatus.InstanceState (AWSMachine.Status r)
       ∧ provider_ref m = AWSMachineSpec.ProviderID (AWSMachine.Spec r)).
Proof.
  intros Hnew.
  destruct (NewMachineScope_success _ _ _ _ Hnew)
    as (client & machine & cluster & awsMachine & awsCluster
        & Hcl & Hma & Hclu & Ham & Hacl & _ & ->).
  simpl. repeat (split; [done|]).
  split; [by intros ->|]. split; [by intros lg ->|].
  split; [by eexists|].
  intros r Hr. rewrite Ham in Hr. by injection Hr as <-.
Qed.

Lemma NewMachineScope_reflects_inputs_witness :
  ∃ m, NewMachineScope Example.accept_all Example.params Example.heap = (Some m, None)
       ∧ MachineScope.Logger m = klogr_New
       ∧ Name m = "m1" ∧ Namespace m = "default".
Proof.
  exists Example.scope.
  destruct (NewMachineScope_reflects_inputs Example.accept_all Example.params
              Example.heap Example.scope eq_refl)
    as (_ & _ & _ & _ & _ & Hdefault & _ & _ & Hrecord).
  destruct (Hrecord Example.awsMachine eq_refl) as (Hname & Hns & _).
  split; [done|]. split; [by apply Hdefault|]. by rewrite Hname, Hns.
Defined.

(** ** Which sequences of calls return *)

(** X3.  A sequence of mutator calls fails exactly when it contains a call
    of [SetErrorMessage] with a nil error, the one call that dereferences
    its argument; every other sequence returns a scope and a heap. *)
Theorem apply_mutators_fails_iff (μs : list mutator) (m : MachineScope.t) (h : Heap) :
  apply_mutators μs m h = None ↔ CallSetErrorMessage None ∈ μs.
Proof.
  revert m h. induction μs as [|μ rest IH]; intros m h; simpl.
  - split; [done|]. by intros ?%elem_of_nil.
  - rewrite elem_of_cons.
    destruct (apply_mutator μ m h) as [[m1 h1]|] eqn:Hμ.
    + rewrite IH. split; [auto|]. intros [<-|Hin]; [|done].
      simpl in Hμ. discriminate Hμ.
    + apply apply_mutator_returns in Hμ. split; auto.
Qed.

(** ** The ready flag *)

Lemma apply_mutator_ready (μ : mutator) m h m' h' :
  apply_mutator μ m h = Some (m', h') →
  AWSMachineStatus.Ready (AWSMachine.Status (MachineScope.AWSMachine m)) = true
  ∨ μ = CallSetReady →
  AWSMachineStatus.Ready (AWSMachine.Status (MachineScope.AWSMachine m')) = true.
Proof.
  intros Hrun Hready.
  mutator_cases μ Hrun; simpl; destruct Hready as [?|?]; done.
Qed.

(** X4.  The ready flag only goes up: if it is set before a sequence of
    mutator calls, or the sequence contains a call of [SetReady], it is set
    after the sequence.  No mutator of the scope resets it. *)
Theorem ready_is_monotone (μs : list mutator) (m : MachineScope.t) (h : Heap)
    (m' : MachineScope.t) (h' : Heap) :
  apply_mutators μs m h = Some (m', h') →
  AWSMachineStatus.Ready (AWSMachine.Status (MachineScope.AWSMachine m)) = true
  ∨ CallSetReady ∈ μs →
  AWSMachineStatus.Ready (AWSMachine.Status (MachineScope.AWSMachine m')) = true.
Proof.
  revert m h. induction μs as [|μ rest IH]; intros m h Hrun Hready.
  - injection Hrun as <- <-. destruct Hready as [?|?%elem_of_nil]; done.
  - destruct (apply_mutators_cons _ _ _ _ _ _ Hrun) as (m1 & h1 & Hμ & Hrest).
    apply (IH _ _ Hrest).
    destruct Hready as [Hset|[<-|Hin]%elem_of_cons]; [left|left|by right].
    + apply (apply_mutator_ready μ m h m1 h1 Hμ). by left.
    + apply (apply_mutator_ready CallSetReady m h m1 h1 Hμ). by right.
Qed.

(** The example machine is not ready; after it is marked ready, an
    annotation and a new state leave it ready. *)
Lemma ready_is_monotone_witness :
  match apply_mutators [CallSetReady; CallSetAnnotation "owner" "team-a";
                        CallSetInstanceState "running"] Example.scope Example.heap
  with
  | Some (m', _) =>
      AWSMachineStatus.Ready (AWSMachine.Status (MachineScope.AWSMachine m')) = true
  | None => False
  end.
Proof.
  destruct (apply_mutators _ Example.scope Example.heap) as [[m' h']|] eqn:Hrun.
  - apply (ready_is_monotone _ _ _ _ _ Hrun). right. apply elem_of_cons. by left.
  - discriminate Hrun.
Defined.

(** X5.  [SetReady] commutes with every mutator call: marking the machine
    ready before a call or after it gives the same scope and the same heap,
    and fails in the same case. *)
Theorem SetReady_commutes (μ : mutator) (m : MachineScope.t) (h : Heap) :
  apply_mutator μ (SetReady m) h
  = (λ s : MachineScope.t * Heap, (SetReady s.1, s.2)) <$> apply_mutator μ m h.
Proof.
  destruct μ as [v|v| |[e|]|v|key value|addrs]; try reflexivity.
  simpl. unfold SetAnnotation. simpl.
  by destruct (ObjectMeta.Annotations _).
Qed.

(** ** What no mutator can change *)

(** X6.  Across any sequence of mutator calls the scope keeps its logger,
    client, patch helper, cluster, owner machine and cluster record, and the
    machine record keeps its name, its namespace, the reference to its
    labels and the reference to its additional tags: no mutator is for
    these.  More generally a field of the machine record is the same after
    the sequence as before it when no call of the sequence is for it. *)
Theorem mutators_never_change (μs : list mutator) (m : MachineScope.t) (h : Heap)
    (m' : MachineScope.t) (h' : Heap) :
  apply_mutators μs m h = Some (m', h') →
  (MachineScope.Logger m' = MachineScope.Logger m
   ∧ MachineScope.client m' = MachineScope.client m
   ∧ MachineScope.patchHelper m' = MachineScope.patchHelper m
   ∧ MachineScope.Cluster m' = MachineScope.Cluster m
   ∧ MachineScope.Machine m' = MachineScope.Machine m
   ∧ MachineScope.AWSCluster m' = MachineScope.AWSCluster m)
  ∧ Name m' = Name m
  ∧ Namespace m' = Namespace m
  ∧ ObjectMeta.Labels (AWSMachine.ObjectMeta (MachineScope.AWSMachine m'))
    = ObjectMeta.Labels (AWSMachine.ObjectMeta (MachineScope.AWSMachine m))
  ∧ AWSMachineSpec.AdditionalTags (AWSMachine.Spec (MachineScope.AWSMachine m'))
    = AWSMachineSpec.AdditionalTags (AWSMachine.Spec (MachineScope.AWSMachine m))
  ∧ (∀ f, Forall (λ μ, designated μ ≠ f) μs →
       get_field f (MachineScope.AWSMachine m')
       = get_field f (MachineScope.AWSMachine m)).
Proof.
  intros Hrun.
  assert (Hfree : ∀ f, (∀ μ, designated μ ≠ f) →
            get_field f (MachineScope.AWSMachine m')
            = get_field f (MachineScope.AWSMachine m)).
  { intros f Hf. apply (apply_mutators_fields μs m h m' h' f Hrun).
    apply Forall_forall. auto. }
  split; [by apply (apply_mutators_scope μs m h m' h')|].
  pose proof (Hfree FName) as Hname. pose proof (Hfree FNamespace) as Hns.
  pose proof (Hfree FLabels) as Hlabels. pose proof (Hfree FAdditionalTags) as Htags.
  simpl in Hname, Hns, Hlabels, Htags. unfold Name, Namespace.
  split; [by injection (Hname ltac:(by intros [])) |].
  split; [by injection (Hns ltac:(by intros [])) |].
  split; [by injection (Hlabels ltac:(by intros [])) |].
  split; [by injection (Htags ltac:(by intros [])) |].
  intros f. by apply (apply_mutators_fields μs m h m' h' f).
Qed.

Lemma mutators_never_change_witness :
  match apply_mutators [CallSetProviderID "aws:///us-east-1a/i-0123"; CallSetReady]
          Example.scope Example.heap
  with
  | Some (m', _) =>
      Name m' = "m1"
      ∧ MachineScope.patchHelper m' = MachineScope.patchHelper Example.scope
      ∧ annotations_of m' = None
  | None => False
  end.
Proof.
  destruct (apply_mutators _ Example.scope Example.heap) as [[m' h']|] eqn:Hrun.
  - destruct (mutators_never_change _ _ _ _ _ Hrun)
      as ((_ & _ & Hhelper & _) & Hname & _ & _ & _ & Hfields).
    split; [by rewrite Hname|]. split; [exact Hhelper|].
    specialize (Hfields FAnnotations). simpl in Hfields.
    unfold annotations_of.
    assert (Hall : Forall (λ μ, designated μ ≠ FAnnotations)
                     [CallSetProviderID "aws:///us-east-1a/i-0123"; CallSetReady]).
    { repeat constructor; done. }
    by injection (Hfields Hall).
  - discriminate Hrun.
Defined.

(** ** Values persist until they are overwritten *)

Lemma new_string_persists f v (rest : list mutator) m h m1 m2 h2 :
  allocated h (annotations_of m) →
  apply_mutators rest m1 (alloc (CString v) h).2 = Some (m2, h2) →
  Forall (λ μ, designated μ ≠ f) rest →
  annotations_of m1 = annotations_of m →
  get_field f (MachineScope.AWSMachine m1) = VRef (Some (next h)) →
  get_field f (MachineScope.AWSMachine m2) = VRef (Some (next h))
  ∧ load_string h2 (next h) = v.
Proof.
  intros Hann Hrest Hall Hsame Hfield.
  split.
  - by rewrite (apply_mutators_fields rest _ _ _ _ f Hrest Hall).
  - assert (Hl : allocated (alloc (CString v) h).2 (Some (next h))).
    { simpl. lia. }
    assert (Hne : Some (next h) ≠ annotations_of m1).
    { rewrite Hsame. destruct (annotations_of m) as [la|]; [|done].
      simpl in Hann. intros [= <-]. lia. }
    destruct (apply_mutators_cells rest _ _ _ _ _ Hrest Hl Hne) as [Hcell _].
    unfold load_string. by rewrite Hcell, alloc_cells_new.
Qed.

(** X7.  The value written by a mutator call stays readable until a call
    for the same field replaces it: after the call and any further calls
    for other fields, the field reads back the argument of the call (the
    provider ID, the state, the error reason and message as strings behind
    the stored pointers, the annotation under its key, the address slice,
    the ready flag).  Taken with no further calls this is the read-back of
    each setter. *)
Theorem setter_value_persists (μ : mutator) (rest : list mutator)
    (m : MachineScope.t) (h : Heap) (m1 : MachineScope.t) (h1 : Heap)
    (m2 : MachineScope.t) (h2 : Heap) :
  allocated h (annotations_of m) →
  apply_mutator μ m h = Some (m1, h1) →
  apply_mutators rest m1 h1 = Some (m2, h2) →
  Forall (λ μ', designated μ' ≠ designated μ) rest →
  reads_back μ m2 h2.
Proof.
  intros Hann Hμ Hrest Hall.
  destruct μ as [v|v| |[e|]|v|key value|addrs].
  - simpl in Hμ. injection Hμ as <- <-.
    destruct (new_string_persists FProviderID v rest m h _ m2 h2 Hann Hrest
                Hall eq_refl eq_refl) as [Hf Hv].
    simpl in Hf. injection Hf as Hf. unfold reads_back, provider_ref, GetProviderID.
    rewrite Hf. split; [by eexists | done].
  - simpl in Hμ. injection Hμ as <- <-.
    destruct (new_string_persists FInstanceState v rest m h _ m2 h2 Hann Hrest
                Hall eq_refl eq_refl) as [Hf Hv].
    simpl in Hf. injection Hf as Hf. exists (next h). by split.
  - simpl in Hμ. injection Hμ as <- <-.
    pose proof (apply_mutators_fields rest _ _ _ _ FReady Hrest Hall) as Hf.
    simpl in Hf. by injection Hf as Hf.
  - simpl in Hμ. injection Hμ as <- <-.
    destruct (new_string_persists FErrorMessage (Error e) rest m h _ m2 h2 Hann
                Hrest Hall eq_refl eq_refl) as [Hf Hv].
    simpl in Hf. injection Hf as Hf. exists e, (next h). by repeat split.
  - discriminate Hμ.
  - simpl in Hμ. injection Hμ as <- <-.
    destruct (new_string_persists FErrorReason v rest m h _ m2 h2 Hann Hrest
                Hall eq_refl eq_refl) as [Hf Hv].
    simpl in Hf. injection Hf as Hf. exists (next h). by split.
  - destruct (SetAnnotation_run key value m h) as (l & Hl & Hmap & Hwhere).
    pose proof (apply_mutator_next (CallSetAnnotation key value) m h m1 h1 Hμ)
      as Hnext.
    cbn [apply_mutator] in Hμ. injection Hμ as Hμ.
    rewrite Hμ in Hl, Hmap. cbn [fst snd] in Hl, Hmap.
    fold (annotations_of m) in Hmap, Hwhere. fold (annotations_of m1) in Hl.
    pose proof (apply_mutators_fields rest _ _ _ _ FAnnotations Hrest Hall) as Hf.
    simpl in Hf. injection Hf as Hf.
    fold (annotations_of m2) in Hf. fold (annotations_of m1) in Hf.
    assert (Halloc : allocated h1 (Some l)).
    { destruct Hwhere as [Hsome|[Hnone ->]].
      - rewrite Hsome in Hann. by apply (allocated_mono h).
      - assert (Hn : next h1 = Pos.succ (next h)); [|simpl; lia].
        apply (f_equal snd) in Hμ. simpl in Hμ. rewrite <- Hμ.
        unfold SetAnnotation. fold (annotations_of m). by rewrite Hnone. }
    pose proof (apply_mutators_cells_alloc rest _ _ _ _ l Hrest Hall Halloc) as Hcell.
    exists l. split; [congruence|].
    unfold load_map in *. rewrite Hcell, Hmap. apply lookup_insert_eq.
  - simpl in Hμ. injection Hμ as <- <-.
    pose proof (apply_mutators_fields rest _ _ _ _ FAddresses Hrest Hall) as Hf.
    simpl in Hf. by injection Hf as Hf.
Qed.

(** The provider ID set on the example scope is still read after the
    machine is marked ready and annotated. *)
Lemma setter_value_persists_witness :
  match apply_mutators [CallSetProviderID "aws:///us-east-1a/i-0123";
                        CallSetReady; CallSetAnnotation "owner" "team-a"]
          Example.scope Example.heap
  with
  | Some (m2, h2) => GetProviderID m2 h2 = "aws:///us-east-1a/i-0123"
  | None => False
  end.
Proof.
  destruct (apply_mutators _ Example.scope Example.heap) as [[m2 h2]|] eqn:Hrun;
    [|discriminate Hrun].
  destruct (apply_mutators_cons _ _ _ _ _ _ Hrun) as (m1 & h1 & Hμ & Hrest).
  apply (setter_value_persists (CallSetProviderID "aws:///us-east-1a/i-0123")
           [CallSetReady; CallSetAnnotation "owner" "team-a"]
           Example.scope Example.heap m1 h1 m2 h2); try done.
  repeat constructor; done.
Defined.

(** ** What the accessors read is changed only by the matching setter *)

Lemma apply_mutators_map_of (μs : list mutator) m h m' h' r :
  apply_mutators μs m h = Some (m', h') →
  allocated h r → separate r (annotations_of m) →
  map_of h' r = map_of h r.
Proof.
  intros Hrun Hr Hsep. apply map_of_agree. intros l ->.
  destruct (apply_mutators_cells μs m h m' h' l Hrun Hr) as [Hcell _]; [|done].
  intros Heq. by apply (Hsep l eq_refl).
Qed.

(** X8.  The provider ID read by [GetProviderID] changes only through
    [SetProviderID]: a sequence of calls of the other mutators leaves it as
    it was, also when the sequence writes annotations or replaces other
    pointers of the record. *)
Theorem GetProviderID_stable (μs : list mutator) (m : MachineScope.t) (h : Heap)
    (m' : MachineScope.t) (h' : Heap) :
  points_to_string h (provider_ref m) →
  points_to_map h (annotations_of m) →
  Forall (λ μ, designated μ ≠ FProviderID) μs →
  apply_mutators μs m h = Some (m', h') →
  GetProviderID m' h' = GetProviderID m h.
Proof.
  intros Hstr Hmap Hall Hrun.
  pose proof (apply_mutators_fields μs m h m' h' FProviderID Hrun Hall) as Hf.
  simpl in Hf. injection Hf as Hf. unfold GetProviderID. rewrite Hf.
  fold (provider_ref m). destruct (provider_ref m) as [l|] eqn:Hl; [|done].
  destruct (Hstr l eq_refl) as [Halloc [s Hs]].
  assert (Hne : Some l ≠ annotations_of m).
  { intros Heq. symmetry in Heq. destruct (Hmap l Heq) as [_ [mp Hmp]]. congruence. }
  destruct (apply_mutators_cells μs m h m' h' l Hrun Halloc Hne) as [Hcell _].
  unfold load_string. by rewrite Hcell.
Qed.

Lemma GetProviderID_stable_witness :
  let s := SetProviderID "aws:///us-east-1a/i-0123" Example.scope Example.heap in
  match apply_mutators [CallSetAnnotation "owner" "team-a"; CallSetErrorReason "InvalidConfiguration";
                        CallSetAnnotation "zone" "a"] s.1 s.2
  with
  | Some (m', h') => GetProviderID m' h' = "aws:///us-east-1a/i-0123"
  | None => False
  end.
Proof.
  intros s.
  destruct (apply_mutators _ s.1 s.2) as [[m' h']|] eqn:Hrun; [|discriminate Hrun].
  assert (Hstr : points_to_string s.2 (provider_ref s.1)).
  { intros l [= <-]. split; [simpl; lia|]. by eexists. }
  assert (Hmap : points_to_map s.2 (annotations_of s.1)) by (intros l [=]).
  assert (Hall : Forall (λ μ, designated μ ≠ FProviderID)
                   [CallSetAnnotation "owner" "team-a";
                    CallSetErrorReason "InvalidConfiguration";
                    CallSetAnnotation "zone" "a"]).
  { repeat constructor; done. }
  rewrite (GetProviderID_stable _ s.1 s.2 m' h' Hstr Hmap Hall Hrun).
  reflexivity.
Defined.

Lemma untargeted_tag_refs (μs : list mutator) m h m' h' :
  apply_mutators μs m h = Some (m', h') →
  MachineScope.AWSCluster m' = MachineScope.AWSCluster m
  ∧ AWSMachineSpec.AdditionalTags (AWSMachine.Spec (MachineScope.AWSMachine m'))
    = AWSMachineSpec.AdditionalTags (AWSMachine.Spec (MachineScope.AWSMachine m)).
Proof.
  intros Hrun.
  destruct (apply_mutators_scope μs m h m' h' Hrun) as (_ & _ & _ & _ & _ & Hcluster).
  split; [done|].
  assert (Hall : Forall (λ μ, designated μ ≠ FAdditionalTags) μs).
  { apply Forall_forall. by intros []. }
  pose proof (apply_mutators_fields μs m h m' h' FAdditionalTags Hrun Hall) as Hf.
  simpl in Hf. by injection Hf.
Qed.

(** ** The role and the tags under mutation *)

(** X9.  The role of the machine is not affected by the mutators: when the
    owner machine's label map is not the very map that holds the record's
    annotations, [IsControlPlane] and [Role] give the same answers after any
    sequence of mutator calls as before it. *)
Theorem Role_stable (μs : list mutator) (m : MachineScope.t) (h : Heap)
    (m' : MachineScope.t) (h' : Heap) :
  allocated h (owner_labels m) →
  separate (owner_labels m) (annotations_of m) →
  apply_mutators μs m h = Some (m', h') →
  IsControlPlane m' h' = IsControlPlane m h ∧ Role m' h' = Role m h.
Proof.
  intros Halloc Hsep Hrun.
  destruct (apply_mutators_scope μs m h m' h' Hrun) as (_ & _ & _ & _ & Hmachine & _).
  assert (Hcp : IsControlPlane m' h' = IsControlPlane m h).
  { unfold IsControlPlane, util_IsControlPlaneMachine. rewrite Hmachine.
    fold (owner_labels m).
    by rewrite (apply_mutators_map_of μs m h m' h' _ Hrun Halloc Hsep). }
  split; [done|]. unfold Role. unfold IsControlPlane in Hcp. by rewrite Hcp.
Qed.

Lemma Role_stable_witness :
  match apply_mutators [CallSetAnnotation MachineControlPlaneLabelName ""; CallSetReady]
          Example.scope Example.heap
  with
  | Some (m', h') => Role m' h' = "control-plane"
  | None => False
  end.
Proof.
  destruct (apply_mutators _ Example.scope Example.heap) as [[m' h']|] eqn:Hrun;
    [|discriminate Hrun].
  assert (Halloc : allocated Example.heap (owner_labels Example.scope)).
  { simpl. lia. }
  assert (Hsep : separate (owner_labels Example.scope) (annotations_of Example.scope)).
  { by intros l _. }
  destruct (Role_stable _ Example.scope Example.heap m' h' Halloc Hsep Hrun) as [_ ->].
  reflexivity.
Defined.

(** The separation asked by X9 is needed.  When the annotations of the
    record and the labels of the owner machine are one and the same map,
    annotating the record relabels the owner: a worker becomes a control
    plane machine. *)
Lemma Role_changes_under_aliasing :
  let shared := ObjectMeta.mk "m1" "default" None (Some 2%positive) in
  let m := MachineScope.mk klogr_Logger 7 None Example.cluster
             (Machine.mk (ObjectMeta.mk "m1" "default" (Some 2%positive) None))
             Example.awsCluster
             (AWSMachine.mk shared (AWSMachineSpec.mk None None)
                (AWSMachineStatus.mk false None None None None)) in
  let s := SetAnnotation MachineControlPlaneLabelName "true" m Example.heap in
  Role m Example.heap = "node" ∧ Role s.1 s.2 = "control-plane".
Proof. split; reflexivity. Qed.

(** X10.  The effective tags do not depend on what the mutators did: when
    neither tag map is the map that holds the record's annotations,
    [AdditionalTags] returns a map with the same contents after any
    sequence of mutator calls as before it. *)
Theorem AdditionalTags_stable (μs : list mutator) (m : MachineScope.t) (h : Heap)
    (m' : MachineScope.t) (h' : Heap) :
  let cref := AWSClusterSpec.AdditionalTags (AWSCluster.Spec (MachineScope.AWSCluster m)) in
  let mref := AWSMachineSpec.AdditionalTags (AWSMachine.Spec (MachineScope.AWSMachine m)) in
  allocated h cref → allocated h mref →
  separate cref (annotations_of m) → separate mref (annotations_of m) →
  apply_mutators μs m h = Some (m', h') →
  map_of (AdditionalTags m' h').2 (AdditionalTags m' h').1
  = map_of (AdditionalTags m h).2 (AdditionalTags m h).1.
Proof.
  intros cref mref Hc Hm Hcsep Hmsep Hrun.
  destruct (untargeted_tag_refs μs m h m' h' Hrun) as [Hcluster Htags].
  pose proof (apply_mutators_next μs m h m' h' Hrun) as Hnext.
  destruct (AdditionalTags_run m h Hc Hm) as (Hl & _ & _ & Hload).
  assert (Hc' : allocated h'
                  (AWSClusterSpec.AdditionalTags (AWSCluster.Spec (MachineScope.AWSCluster m')))).
  { rewrite Hcluster. by apply (allocated_mono h). }
  assert (Hm' : allocated h'
                  (AWSMachineSpec.AdditionalTags (AWSMachine.Spec (MachineScope.AWSMachine m')))).
  { rewrite Htags. by apply (allocated_mono h). }
  destruct (AdditionalTags_run m' h' Hc' Hm') as (Hl' & _ & _ & Hload').
  rewrite Hl, Hl'. cbn [map_of]. rewrite Hload, Hload', Hcluster, Htags.
  fold cref mref.
  by rewrite (apply_mutators_map_of μs m h m' h' cref Hrun Hc Hcsep),
             (apply_mutators_map_of μs m h m' h' mref Hrun Hm Hmsep).
Qed.

Lemma AdditionalTags_stable_witness :
  match apply_mutators [CallSetAnnotation "env" "test";
                        CallSetProviderID "aws:///us-east-1a/i-0123"]
          Example.scope Example.heap
  with
  | Some (m', h') =>
      map_of (AdditionalTags m' h').2 (AdditionalTags m' h').1
      = <["env" := "dev"]> (<["team" := "x"]> ∅)
  | None => False
  end.
Proof.
  destruct (apply_mutators _ Example.scope Example.heap) as [[m' h']|] eqn:Hrun;
    [|discriminate Hrun].
  assert (Hsep : ∀ r, separate r (annotations_of Example.scope)) by (by intros r l _).
  rewrite (AdditionalTags_stable _ Example.scope Example.heap m' h'
             ltac:(simpl; lia) ltac:(simpl; lia) (Hsep _) (Hsep _) Hrun).
  reflexivity.
Defined.

(** ** Annotations compose *)

Lemma SetAnnotation_twice k1 v1 k2 v2 m h :
  let old := map_of h (annotations_of m) in
  let h0 := match annotations_of m with Some _ => h | None => (alloc (CMap ∅) h).2 end in
  let l := match annotations_of m with Some l => l | None => next h end in
  SetAnnotation k2 v2 (SetAnnotation k1 v1 m h).1 (SetAnnotation k1 v1 m h).2
  = (with_AWSMachine m
       (with_ObjectMeta (MachineScope.AWSMachine m)
          (ObjectMeta.mk (Name m) (Namespace m)
             (ObjectMeta.Labels (AWSMachine.ObjectMeta (MachineScope.AWSMachine m)))
             (Some l))),
     store_cell l (CMap (<[k2 := v2]> (<[k1 := v1]> old))) h0).
Proof.
  intros old h0 l. unfold SetAnnotation at 1.
  destruct (SetAnnotation_run k1 v1 m h) as (l1 & Hl1 & Hmap & Hwhere).
  rewrite Hl1, Hmap. cbn [fst snd].
  assert (Hl : l1 = l).
  { unfold l. fold (annotations_of m) in Hwhere.
    destruct Hwhere as [->|[-> ->]]; done. }
  subst l1. fold (annotations_of m) in Hmap |- *. fold old.
  unfold SetAnnotation, l, h0, old, annotations_of, Name, Namespace, store_cell.
  destruct (ObjectMeta.Annotations (AWSMachine.ObjectMeta (MachineScope.AWSMachine m)));
    cbn; f_equal; f_equal; by rewrite ?insert_insert_eq.
Qed.

(** X11.  Annotations accumulate and their order does not matter: two
    calls of [SetAnnotation] for different keys give the same scope and the
    same heap in either order; afterwards both keys have their values, and
    every other key has the value it had before the calls. *)
Theorem SetAnnotation_commutes (k1 v1 k2 v2 : string) (m : MachineScope.t) (h : Heap) :
  k1 ≠ k2 →
  let s12 := SetAnnotation k2 v2 (SetAnnotation k1 v1 m h).1 (SetAnnotation k1 v1 m h).2 in
  let s21 := SetAnnotation k1 v1 (SetAnnotation k2 v2 m h).1 (SetAnnotation k2 v2 m h).2 in
  s12 = s21
  ∧ ∃ l, annotations_of s12.1 = Some l
         ∧ load_map s12.2 l !! k1 = Some v1
         ∧ load_map s12.2 l !! k2 = Some v2
         ∧ ∀ k, k ≠ k1 → k ≠ k2 →
             load_map s12.2 l !! k = map_of h (annotations_of m) !! k.
Proof.
  intros Hne s12 s21. unfold s12, s21. rewrite !SetAnnotation_twice.
  split.
  - do 3 f_equal. by apply insert_insert_ne.
  - eexists. split; [reflexivity|]. cbn [fst snd]. rewrite load_map_store.
    split; [by rewrite lookup_insert_ne, lookup_insert_eq|].
    split; [by rewrite lookup_insert_eq|].
    intros k Hk1 Hk2. by rewrite !lookup_insert_ne.
Qed.

Lemma SetAnnotation_commutes_witness :
  let a := SetAnnotation "owner" "team-a" Example.scope Example.heap in
  let b := SetAnnotation "zone" "a" Example.scope Example.heap in
  SetAnnotation "zone" "a" a.1 a.2 = SetAnnotation "owner" "team-a" b.1 b.2.
Proof.
  intros a b.
  apply (SetAnnotation_commutes "owner" "team-a" "zone" "a" Example.scope Example.heap).
  done.
Defined.

(** ** The instance identifier is a copy *)

Lemma GetProviderID_agree m h h' :
  (∀ l, provider_ref m = Some l → cells h' !! l = cells h !! l) →
  GetProviderID m h' = GetProviderID m h.
Proof.
  intros Hagree. unfold GetProviderID. fold (provider_ref m).
  destruct (provider_ref m) as [l|]; [|done].
  unfold load_string. by rewrite (Hagree l eq_refl).
Qed.

(** X12.  [GetInstanceID] only reads the record.  It returns nil or a
    pointer to a cell that did not exist before the call, never the pointer
    stored in the record, and it leaves every existing cell as it was, so
    the provider ID reads the same afterwards.  A second call returns the
    same identifier behind yet another pointer, and the first result still
    points to its own copy. *)
Theorem GetInstanceID_returns_fresh_copy (m : MachineScope.t) (h : Heap) :
  allocated h (provider_ref m) →
  ∃ r h',
    GetInstanceID m h = Some (r, h')
    ∧ (∀ l, allocated h (Some l) → cells h' !! l = cells h !! l)
    ∧ GetProviderID m h' = GetProviderID m h
    ∧ (∀ l, r = Some l → ¬ allocated h (Some l) ∧ provider_ref m ≠ Some l)
    ∧ ∃ r2 h2,
        GetInstanceID m h' = Some (r2, h2)
        ∧ pointee h2 r2 = pointee h' r
        ∧ pointee h2 r = pointee h' r
        ∧ (∀ l, r = Some l → r2 ≠ Some l).
Proof.
  intros Halloc.
  destruct (NewProviderID_result (GetProviderID m h)) as [[p Hp]|[e He]].
  - set (h' := (alloc (CString (ProviderID.id p)) h).2).
    assert (Hcells : ∀ l, allocated h (Some l) → cells h' !! l = cells h !! l).
    { intros l Hl. apply alloc_cells_other. by apply allocated_ne. }
    assert (Hsame : GetProviderID m h' = GetProviderID m h).
    { apply GetProviderID_agree. intros l Hl. apply Hcells. by rewrite <- Hl. }
    exists (Some (next h)), h'.
    split; [by apply GetInstanceID_parsed|]. split; [done|]. split; [done|].
    split.
    { intros l [= <-]. split; [simpl; lia|].
      intros Heq. rewrite Heq in Halloc. simpl in Halloc. lia. }
    exists (Some (next h')), (alloc (CString (ProviderID.id p)) h').2.
    split; [apply GetInstanceID_parsed; by rewrite Hsame|].
    cbn [pointee]. rewrite load_string_alloc.
    assert (Hfirst : load_string h' (next h) = ProviderID.id p)
      by apply load_string_alloc.
    rewrite Hfirst. split; [done|]. split.
    + f_equal. unfold load_string. rewrite alloc_cells_other; [done|].
      unfold h'. simpl. lia.
    + intros l [= <-]. unfold h'. simpl. intros [= Heq]. lia.
  - assert (Hnil : GetInstanceID m h = Some (None, h)).
    { apply (GetInstanceID_parse_error m h e). by rewrite He. }
    exists None, h. split; [done|]. split; [done|]. split; [done|].
    split; [by intros l [=]|].
    exists None, h. split; [done|]. split; [done|]. split; [done|]. by intros l [=].
Qed.

Lemma GetInstanceID_returns_fresh_copy_witness :
  let s := SetProviderID "aws:///us-east-1a/i-0123" Example.scope Example.heap in
  ∃ r h', GetInstanceID s.1 s.2 = Some (r, h')
          ∧ pointee h' r = Some "i-0123"
          ∧ r ≠ provider_ref s.1
          ∧ GetProviderID s.1 h' = "aws:///us-east-1a/i-0123".
Proof.
  intros s.
  destruct (GetInstanceID_returns_fresh_copy s.1 s.2) as (r & h' & Hrun & _ & Hsame & Hfresh & _).
  { simpl. lia. }
  exists r, h'. split; [done|].
  assert (Hr : r = Some 5%positive ∧ h' = (alloc (CString "i-0123") s.2).2).
  { assert (Hcomputed : GetInstanceID s.1 s.2
                        = Some (Some 5%positive, (alloc (CString "i-0123") s.2).2))
      by reflexivity.
    rewrite Hcomputed in Hrun. by injection Hrun as <- <-. }
  destruct Hr as [-> ->].
  split; [reflexivity|]. split; [|by rewrite Hsame].
  intros Heq. by destruct (Hfresh 5%positive eq_refl) as [_ Hne].
Defined.

(** ** The mutators introduce no sharing *)

Lemma elem_of_fresh_slot (rs : list ref) (i : nat) (n x : loc) :
  x ∈ omap id (<[i := Some n]> rs) → x = n ∨ x ∈ omap id rs.
Proof.
  revert i. induction rs as [|r rs IH]; intros i; [by intros ?%elem_of_nil|].
  destruct i as [|i]; simpl.
  - intros [->|Hin]%elem_of_cons; [by left|]. right.
    destruct r; simpl; [by apply elem_of_cons; right | done].
  - destruct r as [l|]; simpl.
    + intros [->|Hin]%elem_of_cons; [right; apply elem_of_cons; by left|].
      destruct (IH i Hin) as [->|Hrs]; [by left|]. right. apply elem_of_cons. by right.
    + apply IH.
Qed.

(** Filling one slot with an address above all the others keeps the slots
    apart. *)
Lemma fresh_slot (rs : list ref) (i : nat) (n : loc) :
  NoDup (omap id rs) →
  Forall (λ l, (l < n)%positive) (omap id rs) →
  NoDup (omap id (<[i := Some n]> rs))
  ∧ Forall (λ l, (l < Pos.succ n)%positive) (omap id (<[i := Some n]> rs)).
Proof.
  intros Hnd Hall. split.
  - revert i Hnd Hall. induction rs as [|r rs IH]; intros i Hnd Hall; [done|].
    destruct i as [|i]; simpl.
    + apply NoDup_cons. split.
      * intros Hin. rewrite Forall_forall in Hall.
        assert (n ∈ omap id (r :: rs)) as Hn%Hall; [|lia].
        destruct r; simpl; [by apply elem_of_cons; right | done].
      * destruct r; simpl in Hnd; [by apply NoDup_cons in Hnd as [_ ?] | done].
    + destruct r as [l|]; simpl in *; [|by apply IH].
      apply NoDup_cons in Hnd as [Hnotin Hnd]. apply Forall_cons in Hall as [Hl Hall].
      apply NoDup_cons. split; [|by apply IH].
      intros [->|Hin]%elem_of_fresh_slot; [lia | done].
  - apply Forall_forall. intros x [->|Hin]%elem_of_fresh_slot; [lia|].
    rewrite Forall_forall in Hall. specialize (Hall x Hin). simpl in Hall. lia.
Qed.

Lemma apply_mutator_unshared (μ : mutator) m h m' h' :
  unshared h m → apply_mutator μ m h = Some (m', h') → unshared h' m'.
Proof.
  unfold unshared. intros [Hnd Hall] Hrun.
  pose proof (fresh_slot _ 0 (next h) Hnd Hall) as H0.
  pose proof (fresh_slot _ 1 (next h) Hnd Hall) as H1.
  pose proof (fresh_slot _ 2 (next h) Hnd Hall) as H2.
  pose proof (fresh_slot _ 3 (next h) Hnd Hall) as H3.
  pose proof (fresh_slot _ 4 (next h) Hnd Hall) as H4.
  mutator_cases μ Hrun; unfold stored_pointers, annotations_of in *;
    first [ exact H0 | exact H1 | exact H2 | exact H3 | exact (conj Hnd Hall) | idtac ].
  - rewrite Hann in Hnd, Hall. split; [exact Hnd | exact Hall].
  - exact H4.
Qed.

(** X13.  The mutators introduce no sharing.  If the provider ID, the
    state, the error reason, the error message and the annotation map of
    the record are held in separate cells, they still are after any
    sequence of mutator calls: every setter stores a pointer to a cell of
    its own, also when two setters are given the same value. *)
Theorem mutators_introduce_no_sharing (μs : list mutator)
    (m : MachineScope.t) (h : Heap) (m' : MachineScope.t) (h' : Heap) :
  unshared h m →
  apply_mutators μs m h = Some (m', h') →
  unshared h' m'.
Proof.
  revert m h. induction μs as [|μ rest IH]; intros m h Hm Hrun.
  - by injection Hrun as <- <-.
  - destruct (apply_mutators_cons _ _ _ _ _ _ Hrun) as (m1 & h1 & Hμ & Hrest).
    apply (IH m1 h1); [|done]. by apply (apply_mutator_unshared μ m h).
Qed.

(** The example record holds no pointer at all; after its state and its
    error reason are set to the same string the two fields are held in
    separate cells. *)
Lemma mutators_introduce_no_sharing_witness :
  match apply_mutators [CallSetInstanceState "pending"; CallSetErrorReason "pending"]
          Example.scope Example.heap
  with
  | Some (m', h') => unshared h' m'
  | None => False
  end.
Proof.
  destruct (apply_mutators _ Example.scope Example.heap) as [[m' h']|] eqn:Hrun;
    [|discriminate Hrun].
  assert (Hstart : unshared Example.heap Example.scope).
  { split; [apply NoDup_nil_2 | apply Forall_nil_2]. }
  exact (mutators_introduce_no_sharing _ _ _ _ _ Hstart Hrun).
Defined.
